(** * Alice AI key proxy (api/index.py): key lifecycle, /ai authorization
      and the Telegram webhook, as a shallow embedding.

    The Python module keeps its state in one MongoDB collection
    ([keys_col]) and talks to three outside parties: the wall clock
    ([datetime.utcnow]), the token generator ([secrets.token_urlsafe]) and
    the upstream completion endpoint ([session.post]).  The embedding
    threads a [World] through a small state-and-exception monad; the
    outside parties are oracles of an [Env], indexed by how often they
    have been consulted so far.  Strings are Python strings in UTF-8;
    datetimes are microseconds, which the collection cuts to
    milliseconds; the upstream body is the JSON value that [r.json()]
    returns. *)

From Stdlib Require Import ZArith List String Ascii Bool Lia Arith.
Import ListNotations.
Open Scope string_scope.
Open Scope Z_scope.

(** ** Data model *)

(** A document of the [AI_APIKEY] collection, with the six fields that
    [create_key] writes.  Datetimes are naive Python datetimes, counted
    in microseconds since 0001-01-01T00:00:00. *)
Record KeyDoc := mkKeyDoc {
  key        : string;
  name       : string;
  created_at : Z;
  expires_at : Z;
  active     : bool;
  usage      : Z
}.

(** Python exceptions that the modelled code can raise. *)
Inductive exn :=
| DuplicateKeyError
| OverflowError
| RecursionError
| ValueError
| IndexError
| KeyError
| TypeError
| AttributeError
| Timeout
| ConnectionError
| HTTPError (status : Z)
| JSONDecodeError.

Inductive result (A : Type) :=
| Ok (a : A)
| Raise (e : exn).
Arguments Ok {A} a.
Arguments Raise {A} e.

(** A value as [json.loads] builds it.  A number is kept as the text of
    its literal; an object keeps its members in the order of the text. *)
#[local] Unset Elimination Schemes.
Inductive Json :=
| JNull
| JBool (b : bool)
| JNumber (literal : string)
| JString (s : string)
| JArray (items : list Json)
| JObject (members : list (string * Json)).
#[local] Set Elimination Schemes.

(** What the upstream endpoint answers to one POST: no answer in time,
    no connection, or a status and a body, which is [None] when the body
    is not JSON text. *)
Inductive PostOutcome :=
| PostTimeout
| PostConnectionError
| PostResponse (status : Z) (body : option Json).

(** Texts that the bot sends; the Markdown layout of the f-strings is
    kept abstract, the data they interpolate is kept. *)
Inductive BotText :=
| StartText
| HelpText
| KeyGenerated (n k : string)
| NoKeysFound
| KeyList (docs : list KeyDoc)
| KeyNotFound
| UsageText (n : string) (u : Z)
| KeyReworked (k : string)
| DeletedText
| TestOk (latency : Z)
| PlainText (reply : Json).

(** Bodies of HTTP responses. *)
Inductive Body :=
| ErrorBody (msg : string)
| ReplyBody (provider : string) (reply : Json) (latency : Z)
| TextBody (s : string).

Record Response := mkResponse {
  body   : Body;
  status : Z
}.

(** The process state and the effects observed so far. *)
Record World := mkWorld {
  keys_col : list KeyDoc;           (* the collection, in insertion order *)
  ticks    : nat;                   (* clock readings taken *)
  draws    : nat;                   (* tokens generated *)
  posts    : list string;           (* prompts POSTed upstream, oldest first *)
  outbox   : list (Z * BotText)     (* bot.send_message calls, oldest first *)
}.

(** A Telegram message as the handlers read it: [m.from_user.id],
    [m.chat.id] and [m.text], which is [None] unless the content type is
    text. *)
Record Message := mkMessage {
  from_id : Z;
  chat_id : Z;
  text    : option string
}.

Record Update := mkUpdate {
  update_id : Z;
  message   : option Message
}.

(** The outside world.  [elapsed_at] is the latency [call_ai] measures
    for the n-th POST, already rounded to hundredths of a second;
    [de_json] is telebot's parser of the webhook payload; [unicode_int]
    is what [int] makes of a word that is not plain ASCII, by the
    interpreter's table of decimal digits ([None]: it raises). *)
Record Env := mkEnv {
  ADMIN_ID    : Z;
  utcnow_at   : nat -> Z;
  token_at    : nat -> string;
  upstream_at : nat -> string -> PostOutcome;
  elapsed_at  : nat -> Z;
  de_json     : string -> result Update;
  unicode_int : string -> option Z;
  stack_room  : nat                 (* frames left below the recursion limit *)
}.

(** ** The state-and-exception monad *)

Definition M (A : Type) : Type := World -> result A * World.

Definition ret {A} (a : A) : M A := fun w => (Ok a, w).

Definition raise {A} (e : exn) : M A := fun w => (Raise e, w).

Definition bind {A B} (c : M A) (k : A -> M B) : M B :=
  fun w =>
    match c w with
    | (Ok a, w') => k a w'
    | (Raise e, w') => (Raise e, w')
    end.

Declare Scope py_scope.
Delimit Scope py_scope with py.
Notation "x <- c ;; k" := (bind c (fun x => k))
  (at level 100, c at next level, right associativity) : py_scope.
Notation "c ;;; k" := (bind c (fun _ => k))
  (at level 100, right associativity) : py_scope.
Open Scope py_scope.

Definition lift {A} (r : result A) : M A := fun w => (r, w).

(** [try: body / except DuplicateKeyError: handler / (else) rest]. *)
Definition try_except_duplicate {A} (body : M unit) (handler rest : M A) : M A :=
  fun w =>
    match body w with
    | (Ok _, w') => rest w'
    | (Raise DuplicateKeyError, w') => handler w'
    | (Raise e, w') => (Raise e, w')
    end.

(** ** Python datetime arithmetic *)

Definition US_PER_DAY : Z := 86400000000.

(** [datetime.max] is 9999-12-31T23:59:59.999999, the last microsecond of
    day 3652059 of the proleptic Gregorian calendar. *)
Definition DATETIME_MAX : Z := 3652059 * US_PER_DAY - 1.

Definition TIMEDELTA_MAX_DAYS : Z := 999999999.

(** [datetime.timedelta(days=d)], in microseconds. *)
Definition timedelta_days (d : Z) : result Z :=
  if Z.abs d <=? TIMEDELTA_MAX_DAYS then Ok (d * US_PER_DAY)
  else Raise OverflowError.

(** [dt + td] on a naive datetime. *)
Definition datetime_add (dt td : Z) : result Z :=
  if (0 <=? dt + td) && (dt + td <=? DATETIME_MAX) then Ok (dt + td)
  else Raise OverflowError.

(** ** The collection (pymongo operations used by the module)

    The collection is modelled at the level of the calls the module
    makes: a list of documents in insertion order.  A datetime is stored
    with millisecond precision, its microseconds cut off; [usage] is an
    unbounded integer. *)

(** A datetime as the collection keeps it. *)
Definition trunc_ms (t : Z) : Z := 1000 * (t / 1000).

(** The document that the collection holds after [doc] was inserted. *)
Definition bson_stored (doc : KeyDoc) : KeyDoc :=
  mkKeyDoc (key doc) (name doc) (trunc_ms (created_at doc))
           (trunc_ms (expires_at doc)) (active doc) (usage doc).

Definition has_key (k : string) (d : KeyDoc) : bool := String.eqb (key d) k.
Definition has_name (n : string) (d : KeyDoc) : bool := String.eqb (name d) n.
Definition has_key_active (k : string) (d : KeyDoc) : bool :=
  has_key k d && active d.
Definition has_key_or_name (t : string) (d : KeyDoc) : bool :=
  has_key t d || has_name t d.

Definition set_active (b : bool) (d : KeyDoc) : KeyDoc :=
  mkKeyDoc (key d) (name d) (created_at d) (expires_at d) b (usage d).

Definition inc_usage (d : KeyDoc) : KeyDoc :=
  mkKeyDoc (key d) (name d) (created_at d) (expires_at d) (active d) (usage d + 1).

(** [update_one]: the first document matching the filter is updated. *)
Fixpoint update_first (p : KeyDoc -> bool) (f : KeyDoc -> KeyDoc)
    (col : list KeyDoc) : list KeyDoc :=
  match col with
  | [] => []
  | d :: rest => if p d then f d :: rest else d :: update_first p f rest
  end.

(** [update_many]: every matching document is updated. *)
Definition update_all (p : KeyDoc -> bool) (f : KeyDoc -> KeyDoc)
    (col : list KeyDoc) : list KeyDoc :=
  map (fun d => if p d then f d else d) col.

(** [modified_count] of an [update_many] that sets [active] to [false]:
    the matching documents whose [active] field actually changes. *)
Definition modified_count (p : KeyDoc -> bool) (col : list KeyDoc) : Z :=
  Z.of_nat (List.length (filter (fun d => p d && active d) col)).

Definition with_keys_col (col : list KeyDoc) (w : World) : World :=
  mkWorld col (ticks w) (draws w) (posts w) (outbox w).

(** [keys_col.insert_one(doc)] under the unique index on ["key"]. *)
Definition insert_one (doc : KeyDoc) : M unit :=
  fun w =>
    if existsb (has_key (key doc)) (keys_col w) then (Raise DuplicateKeyError, w)
    else (Ok tt, with_keys_col (keys_col w ++ [bson_stored doc]) w).

Definition find_one (p : KeyDoc -> bool) : M (option KeyDoc) :=
  fun w => (Ok (find p (keys_col w)), w).

Definition find_all : M (list KeyDoc) :=
  fun w => (Ok (keys_col w), w).

Definition update_one (p : KeyDoc -> bool) (f : KeyDoc -> KeyDoc) : M unit :=
  fun w => (Ok tt, with_keys_col (update_first p f (keys_col w)) w).

Definition update_many_deactivate (p : KeyDoc -> bool) : M Z :=
  fun w => (Ok (modified_count p (keys_col w)),
            with_keys_col (update_all p (set_active false) (keys_col w)) w).

Definition delete_many (p : KeyDoc -> bool) : M unit :=
  fun w => (Ok tt, with_keys_col (filter (fun d => negb (p d)) (keys_col w)) w).

(** ** Python strings

    A Python [str] is modelled by its UTF-8 encoding, one [ascii] per
    byte. *)

Definition byte (c : ascii) : nat := nat_of_ascii c.

(** The number of bytes of the whitespace character at the head of [s],
    0 when [s] does not start with one.  For Python the whitespace
    characters are U+0009 to U+000D, U+001C to U+0020, U+0085, U+00A0,
    U+1680, U+2000 to U+200A, U+2028, U+2029, U+202F, U+205F and
    U+3000. *)
Definition space_width (s : string) : nat :=
  match s with
  | EmptyString => 0
  | String c1 r1 =>
      let b1 := byte c1 in
      if ((9 <=? b1) && (b1 <=? 13) || (28 <=? b1) && (b1 <=? 32))%nat then 1
      else
        match r1 with
        | EmptyString => 0
        | String c2 r2 =>
            let b2 := byte c2 in
            if ((b1 =? 194) && ((b2 =? 133) || (b2 =? 160)))%nat then 2
            else
              match r2 with
              | EmptyString => 0
              | String c3 _ =>
                  let b3 := byte c3 in
                  if ((b1 =? 225) && (b2 =? 154) && (b3 =? 128))%nat then 3
                  else if ((b1 =? 226) && (b2 =? 128) &&
                           ((128 <=? b3) && (b3 <=? 138) || (b3 =? 168) ||
                            (b3 =? 169) || (b3 =? 175)))%nat then 3
                  else if ((b1 =? 226) && (b2 =? 129) && (b3 =? 159))%nat then 3
                  else if ((b1 =? 227) && (b2 =? 128) && (b3 =? 128))%nat then 3
                  else 0
              end
        end
  end%nat.

Definition startswith (prefix s : string) : bool := String.prefix prefix s.

(** [s.split()], with [cur] the word being read and [skip] the bytes
    still to pass of a whitespace character already recognised. *)
Fixpoint split_from (skip : nat) (cur s : string) : list string :=
  match s with
  | EmptyString => if String.eqb cur "" then [] else [cur]
  | String c s' =>
      match skip with
      | S k => split_from k cur s'
      | O =>
          match space_width s with
          | O => split_from 0 (cur ++ String c "") s'
          | S k =>
              if String.eqb cur "" then split_from k "" s'
              else cur :: split_from k "" s'
          end
      end
  end.

Definition py_split (s : string) : list string := split_from 0 "" s.

Fixpoint skip_spaces_from (skip : nat) (s : string) : string :=
  match s with
  | EmptyString => ""
  | String c s' =>
      match skip with
      | S k => skip_spaces_from k s'
      | O =>
          match space_width s with
          | O => s
          | S k => skip_spaces_from k s'
          end
      end
  end.

Definition skip_spaces (s : string) : string := skip_spaces_from 0 s.

Fixpoint take_word (s : string) : string * string :=
  match s with
  | EmptyString => ("", "")
  | String c s' =>
      match space_width s with
      | O => let '(w, r) := take_word s' in (String c w, r)
      | S _ => ("", s)
      end
  end.

(** [s.split(maxsplit=1)]: the first word, then what follows the
    whitespace after it, when anything does. *)
Definition py_split_max1 (s : string) : list string :=
  let s1 := skip_spaces s in
  if String.eqb s1 "" then []
  else
    let '(w, r) := take_word s1 in
    let r' := skip_spaces r in
    if String.eqb r' "" then [w] else [w; r'].

(** [s.split('@')[0]]. *)
Fixpoint before_at (s : string) : string :=
  match s with
  | EmptyString => ""
  | String c s' => if Ascii.eqb c "@" then "" else String c (before_at s')
  end.

(** [s[1:]] for a string whose first character is one byte long, as the
    slash of a command is. *)
Definition drop_first (s : string) : string :=
  match s with
  | EmptyString => ""
  | String _ s' => s'
  end.

(** [lst[i]] on a Python list. *)
Definition py_index (l : list string) (i : nat) : result string :=
  match nth_error l i with
  | Some x => Ok x
  | None => Raise IndexError
  end.

Definition digit_value (c : ascii) : option Z :=
  let n := nat_of_ascii c in
  if ((48 <=? n) && (n <=? 57))%nat then Some (Z.of_nat n - 48) else None.

(** Decimal digits with single underscores between them; [prev] tells
    whether the previous character was a digit. *)
Fixpoint digits_value (acc : Z) (prev : bool) (s : string) : option Z :=
  match s with
  | EmptyString => if prev then Some acc else None
  | String c s' =>
      match digit_value c with
      | Some d => digits_value (10 * acc + d) true s'
      | None =>
          if Ascii.eqb c "_" && prev then digits_value acc false s' else None
      end
  end.

Fixpoint is_ascii (s : string) : bool :=
  match s with
  | EmptyString => true
  | String c s' => (byte c <? 128)%nat && is_ascii s'
  end.

Fixpoint count_digits (s : string) : nat :=
  match s with
  | EmptyString => 0
  | String c s' =>
      match digit_value c with
      | Some _ => S (count_digits s')
      | None => count_digits s'
      end
  end.

(** The interpreter's default limit on the digits of a decimal string. *)
Definition INT_MAX_STR_DIGITS : nat := 4300.

(** [int(s)] on a string.  Whitespace around the one word is dropped.
    A word of plain ASCII is read here: a sign, then digits with single
    underscores between them, at most [INT_MAX_STR_DIGITS] digits.  A
    word with other characters is read by the interpreter's table of
    decimal digits, [unicode]. *)
Definition py_int (unicode : string -> option Z) (s : string) : result Z :=
  match py_split s with
  | [t] =>
      let signed :=
        if is_ascii t then
          if (INT_MAX_STR_DIGITS <? count_digits t)%nat then None
          else
            match t with
            | String "+" r => digits_value 0 false r
            | String "-" r => option_map Z.opp (digits_value 0 false r)
            | _ => digits_value 0 false t
            end
        else unicode t in
      match signed with
      | Some z => Ok z
      | None => Raise ValueError
      end
  | _ => Raise ValueError
  end.

(** ** Subscripting what [r.json()] returned *)

(** [d[k]] on a parsed object: of members with the same name the last
    one counts. *)
Fixpoint assoc_last (k : string) (ms : list (string * Json)) : option Json :=
  match ms with
  | [] => None
  | (k', v) :: rest =>
      match assoc_last k rest with
      | Some v' => Some v'
      | None => if String.eqb k' k then Some v else None
      end
  end.

(** [j[k]] for a string [k]. *)
Definition subscript_key (j : Json) (k : string) : result Json :=
  match j with
  | JObject ms =>
      match assoc_last k ms with
      | Some v => Ok v
      | None => Raise KeyError
      end
  | _ => Raise TypeError
  end.

Fixpoint continuation_bytes (s : string) : string :=
  match s with
  | EmptyString => ""
  | String c s' =>
      if ((128 <=? byte c) && (byte c <? 192))%nat
      then String c (continuation_bytes s') else ""
  end.

(** [j[0]]: the first item of a list, the first character of a string;
    an object has no member [0]. *)
Definition subscript_0 (j : Json) : result Json :=
  match j with
  | JArray (x :: _) => Ok x
  | JArray [] => Raise IndexError
  | JString (String c s') => Ok (JString (String c (continuation_bytes s')))
  | JString EmptyString => Raise IndexError
  | JObject _ => Raise KeyError
  | _ => Raise TypeError
  end.

(** ** The module's functions *)

Section Program.

Variable E : Env.

Definition utcnow : M Z :=
  fun w => (Ok (utcnow_at E (ticks w)),
            mkWorld (keys_col w) (S (ticks w)) (draws w) (posts w) (outbox w)).

Definition is_admin (uid : Z) : bool := uid =? ADMIN_ID E.

(** [secrets.token_urlsafe(24)]. *)
Definition gen_key : M string :=
  fun w => (Ok (token_at E (draws w)),
            mkWorld (keys_col w) (ticks w) (S (draws w)) (posts w) (outbox w)).

(** [create_key(name, days)].  [depth] is the number of frames the
    interpreter still allows: the function calls itself on a duplicate
    key, and Python raises [RecursionError] when the limit is reached. *)
Fixpoint create_key (depth : nat) (n : string) (days : Z) : M KeyDoc :=
  match depth with
  | O => raise RecursionError
  | S depth' =>
      now <- utcnow ;;
      k <- gen_key ;;
      td <- lift (timedelta_days days) ;;
      expires <- lift (datetime_add now td) ;;
      let doc := mkKeyDoc k n now expires true 0 in
      try_except_duplicate (insert_one doc)
        (create_key depth' n days)
        (ret doc)
  end.

Definition revoke_by_name (n : string) : M Z :=
  update_many_deactivate (has_name n).

(** [r.raise_for_status()]: 4xx and 5xx raise. *)
Definition raise_for_status (st : Z) : result unit :=
  if (400 <=? st) && (st <? 600) then Raise (HTTPError st) else Ok tt.

(** [data = r.json(); data["choices"][0]["message"]["content"]]. *)
Definition extract_reply (b : option Json) : result Json :=
  match b with
  | None => Raise JSONDecodeError
  | Some data =>
      match subscript_key data "choices" with
      | Raise e => Raise e
      | Ok choices =>
          match subscript_0 choices with
          | Raise e => Raise e
          | Ok first =>
              match subscript_key first "message" with
              | Raise e => Raise e
              | Ok msg => subscript_key msg "content"
              end
          end
      end
  end.

Definition session_post (text : string) : M (Z * option Json) :=
  fun w =>
    let w' := mkWorld (keys_col w) (ticks w) (draws w) (posts w ++ [text]) (outbox w) in
    match upstream_at E (List.length (posts w)) text with
    | PostTimeout => (Raise Timeout, w')
    | PostConnectionError => (Raise ConnectionError, w')
    | PostResponse st b => (Ok (st, b), w')
    end.

Definition call_ai (text : string) : M (Json * Z) :=
  fun w =>
    let nth_post := List.length (posts w) in
    (r <- session_post text ;;
     lift (raise_for_status (fst r)) ;;;
     reply <- lift (extract_reply (snd r)) ;;
     ret (reply, elapsed_at E nth_post)) w.

Definition json_error (msg : string) (st : Z) : Response :=
  mkResponse (ErrorBody msg) st.

(** Python truth value of [request.args.get(...)]: [None] and the empty
    string are false. *)
Definition truthy (a : option string) : bool :=
  match a with
  | None => false
  | Some s => negb (String.eqb s "")
  end.

Definition arg_value (a : option string) : string :=
  match a with
  | None => ""
  | Some s => s
  end.

(** The view of [/ai], called with the two query parameters. *)
Definition ai_api (apikey prompt : option string) : M Response :=
  if negb (truthy apikey) || negb (truthy prompt) then
    ret (json_error "Missing parameters" 400)
  else
    let k := arg_value apikey in
    doc <- find_one (has_key_active k) ;;
    match doc with
    | None => ret (json_error "Invalid API key" 401)
    | Some d =>
        now <- utcnow ;;
        if expires_at d <? now then
          update_one (has_key k) (set_active false) ;;;
          ret (json_error "API key expired" 401)
        else
          r <- call_ai (arg_value prompt) ;;
          update_one (has_key k) inc_usage ;;;
          ret (mkResponse (ReplyBody "Alice AI" (fst r) (snd r)) 200)
    end.

(** *** Bot handlers *)

(** [bot.send_message(chat, text)]: the call is recorded in the outbox.
    What Telegram answers to the call is outside the model, which follows
    a handler through its own statements. *)
Definition send_message (chat : Z) (t : BotText) : M unit :=
  fun w => (Ok tt,
            mkWorld (keys_col w) (ticks w) (draws w) (posts w) (outbox w ++ [(chat, t)])).

Definition text_of (m : Message) : string := arg_value (text m).

(** [m.text] as the receiver of a method call: on [None] the call raises
    [AttributeError]. *)
Definition text_str (m : Message) : result string :=
  match text m with
  | Some s => Ok s
  | None => Raise AttributeError
  end.

Definition start_cmd (m : Message) : M unit :=
  send_message (chat_id m) StartText.

Definition help_cmd (m : Message) : M unit :=
  send_message (chat_id m) HelpText.

Definition genkey_cmd (m : Message) : M unit :=
  if negb (is_admin (from_id m)) then ret tt
  else
    s <- lift (text_str m) ;;
    let p := py_split s in
    if (List.length p <? 3)%nat then ret tt
    else
      n <- lift (py_index p 1) ;;
      d <- lift (py_index p 2) ;;
      days <- lift (py_int (unicode_int E) d) ;;
      doc <- create_key (stack_room E) n days ;;
      send_message (chat_id m) (KeyGenerated (name doc) (key doc)).

Definition list_cmd (m : Message) : M unit :=
  if negb (is_admin (from_id m)) then ret tt
  else
    docs <- find_all ;;
    match docs with
    | [] => send_message (chat_id m) NoKeysFound
    | _ => send_message (chat_id m) (KeyList docs)
    end.

Definition usage_cmd (m : Message) : M unit :=
  if negb (is_admin (from_id m)) then ret tt
  else
    s <- lift (text_str m) ;;
    let t := py_split_max1 s in
    if (List.length t <? 2)%nat then ret tt
    else
      a <- lift (py_index t 1) ;;
      by_key <- find_one (has_key a) ;;
      doc <- match by_key with
             | Some d => ret (Some d)
             | None => find_one (has_name a)
             end ;;
      match doc with
      | None => send_message (chat_id m) KeyNotFound
      | Some d => send_message (chat_id m) (UsageText (name d) (usage d))
      end.

Definition rework_cmd (m : Message) : M unit :=
  if negb (is_admin (from_id m)) then ret tt
  else
    s <- lift (text_str m) ;;
    n <- lift (py_index (py_split_max1 s) 1) ;;
    revoke_by_name n ;;;
    doc <- create_key (stack_room E) n 30 ;;
    send_message (chat_id m) (KeyReworked (key doc)).

Definition delkey_cmd (m : Message) : M unit :=
  if negb (is_admin (from_id m)) then ret tt
  else
    s <- lift (text_str m) ;;
    t <- lift (py_index (py_split_max1 s) 1) ;;
    delete_many (has_key_or_name t) ;;;
    send_message (chat_id m) DeletedText.

Definition test_cmd (m : Message) : M unit :=
  if negb (is_admin (from_id m)) then ret tt
  else
    s <- lift (text_str m) ;;
    lift (py_index (py_split_max1 s) 1) ;;;
    r <- call_ai "OK" ;;
    send_message (chat_id m) (TestOk (snd r)).

(** The dispatcher calls this handler with a text only; [text_of] reads
    it. *)
Definition chat_handler (m : Message) : M unit :=
  r <- call_ai (text_of m) ;;
  send_message (chat_id m) (PlainText (fst r)).

(** *** The dispatcher

    [telebot.TeleBot(BOT_TOKEN, threaded=False)] runs handlers in the
    calling thread: for a message, the first registered handler whose
    filters pass is called, and what it raises is raised by
    [process_new_updates] (no exception handler is installed).  Every
    handler is registered with the default content type, text. *)

(** [util.extract_command(text)]. *)
Definition extract_command (s : string) : option string :=
  if startswith "/" s then
    match py_split s with
    | first :: _ => Some (drop_first (before_at first))
    | [] => None
    end
  else None.

Definition commands_filter (cmds : list string) (m : Message) : bool :=
  match text m with
  | None => false
  | Some s =>
      match extract_command s with
      | Some c => existsb (String.eqb c) cmds
      | None => false
      end
  end.

(** [func=lambda m: not m.text.startswith("/")]. *)
Definition chat_filter (m : Message) : bool :=
  match text m with
  | None => false
  | Some s => negb (startswith "/" s)
  end.

(** The handlers in the order the decorators register them. *)
Definition message_handlers : list ((Message -> bool) * (Message -> M unit)) :=
  [ (commands_filter ["start"], start_cmd);
    (commands_filter ["help"], help_cmd);
    (commands_filter ["genkey"], genkey_cmd);
    (commands_filter ["list"], list_cmd);
    (commands_filter ["usage"], usage_cmd);
    (commands_filter ["rework"], rework_cmd);
    (commands_filter ["delkey"], delkey_cmd);
    (commands_filter ["test"], test_cmd);
    (chat_filter, chat_handler) ].

Definition process_new_message (m : Message) : M unit :=
  match find (fun h => fst h m) message_handlers with
  | Some h => snd h m
  | None => ret tt
  end.

(** [bot.process_new_updates([update])]. *)
Definition process_new_updates (u : Update) : M unit :=
  match message u with
  | Some m => process_new_message m
  | None => ret tt
  end.

(** The view of [/telegram], called with the request body. *)
Definition telegram_webhook (data : string) : M Response :=
  u <- lift (de_json E data) ;;
  process_new_updates u ;;;
  ret (mkResponse (TextBody "OK") 200).

End Program.

(** ** Derived notions used in the statements *)

(** The unique index on ["key"]: no two documents share a key. *)
Definition unique_keys (col : list KeyDoc) : Prop := NoDup (map key col).

(** The usage counter the store holds for a key, if it holds the key. *)
Definition usage_of (k : string) (w : World) : option Z :=
  option_map usage (find (has_key k) (keys_col w)).

(** A request gets past the authorization when the prompt is POSTed
    upstream. *)
Definition admits (E : Env) (k p : string) (w : World) : Prop :=
  posts (snd (ai_api E (Some k) (Some p) w)) = (posts w ++ [p])%list.

(** What [call_ai] needs from the upstream answer to return: a status
    outside 400..599 and a JSON body that holds a value, of any kind,
    at [choices[0].message.content]. *)
Definition good_answer (o : PostOutcome) : option Json :=
  match o with
  | PostResponse st b =>
      if (400 <=? st) && (st <? 600) then None
      else
        match extract_reply b with
        | Ok c => Some c
        | Raise _ => None
        end
  | _ => None
  end.

(** [now + timedelta(days=days)] is a datetime. *)
Definition representable (now days : Z) : Prop :=
  Z.abs days <= TIMEDELTA_MAX_DAYS /\
  0 <= now + days * US_PER_DAY <= DATETIME_MAX.

(** The world after one more POST, and after one more clock reading. *)
Definition posted (text : string) (w : World) : World :=
  mkWorld (keys_col w) (ticks w) (draws w) (posts w ++ [text]) (outbox w).

Definition ticked (w : World) : World :=
  mkWorld (keys_col w) (S (ticks w)) (draws w) (posts w) (outbox w).

(** The value or exception of the n-th [call_ai]. *)
Definition call_ai_result (E : Env) (n : nat) (text : string) : result (Json * Z) :=
  match upstream_at E n text with
  | PostTimeout => Raise Timeout
  | PostConnectionError => Raise ConnectionError
  | PostResponse st b =>
      match raise_for_status st with
      | Raise e => Raise e
      | Ok _ =>
          match extract_reply b with
          | Raise e => Raise e
          | Ok s => Ok (s, elapsed_at E n)
          end
      end
  end.

(** The record that the attempt after [k] collisions builds. *)
Definition doc_after (E : Env) (w : World) (k : nat) (n : string) (days : Z) : KeyDoc :=
  let now := utcnow_at E (ticks w + k)%nat in
  mkKeyDoc (token_at E (draws w + k)%nat) n now (now + days * US_PER_DAY) true 0.

(** ** Sample environments and worlds

    Concrete inputs on which the statements below are exercised. *)

(** 2026-11-04T12:00:00 in microseconds since 0001-01-01. *)
Definition noon : Z := 63929390400000000.

Definition steady_clock : nat -> Z := fun _ => noon.

(** A clock that advances by one second per reading. *)
Definition running_clock : nat -> Z := fun n => noon + Z.of_nat n * 1000000.

Definition stuck_token : nat -> string := fun _ => "tok-A".

(** Collides [n] times with ["tok-A"], then yields ["tok-B"]. *)
Definition late_token (n : nat) : nat -> string :=
  fun i => if (i <? n)%nat then "tok-A" else "tok-B".

(** The body of a completion whose first choice has the content [c]. *)
Definition completion (c : Json) : Json :=
  JObject [("choices", JArray [JObject [("message", JObject [("content", c)])]])].

Definition echo_upstream : nat -> string -> PostOutcome :=
  fun _ text => PostResponse 200 (Some (completion (JString text))).

Definition silent_upstream : nat -> string -> PostOutcome :=
  fun _ _ => PostTimeout.

(** An upstream that answers with status 304 and a completion. *)
Definition not_modified_upstream : nat -> string -> PostOutcome :=
  fun _ text => PostResponse 304 (Some (completion (JString text))).

(** A payload parser for the samples: the payload is the text of a
    message that user 7 sends in chat 70. *)
Definition text_update : string -> result Update :=
  fun data => Ok (mkUpdate 1 (Some (mkMessage 7 70 (Some data)))).

Definition sample_env (clock : nat -> Z) (token : nat -> string)
    (upstream : nat -> string -> PostOutcome) : Env :=
  mkEnv 1 clock token upstream (fun _ => 42) text_update (fun _ => None) 1000.

Definition sample_doc (exp : Z) (a : bool) : KeyDoc :=
  mkKeyDoc "tok-A" "alice" (noon - US_PER_DAY) exp a 3.

Definition world_with (col : list KeyDoc) : World := mkWorld col 0 0 [] [].

(** ** Notions for the properties of the remaining code *)

(** The fields of a record that no operation rewrites. *)
Definition identity_of (d : KeyDoc) : string * string * Z * Z :=
  (key d, name d, created_at d, expires_at d).

(** A record may only lose [active] and gain [usage]. *)
Definition ages_to (d d' : KeyDoc) : Prop :=
  identity_of d' = identity_of d /\
  (active d' = true -> active d = true) /\
  usage d <= usage d'.

(** A run of [/ai] requests that all present the key [k], one prompt
    each, with the answers in order. *)
Fixpoint serve (E : Env) (k : string) (prompts : list string) (w : World)
    : list (result Response) * World :=
  match prompts with
  | [] => ([], w)
  | p :: rest =>
      let '(r, w1) := ai_api E (Some k) (Some p) w in
      let '(rs, w2) := serve E k rest w1 in
      (r :: rs, w2)
  end.

Definition is_ok_200 (r : result Response) : bool :=
  match r with
  | Ok resp => status resp =? 200
  | Raise _ => false
  end.

Definition successes (rs : list (result Response)) : Z :=
  Z.of_nat (List.length (filter is_ok_200 rs)).

(** The world after one more [bot.send_message]. *)
Definition sent (chat : Z) (t : BotText) (w : World) : World :=
  mkWorld (keys_col w) (ticks w) (draws w) (posts w) (outbox w ++ [(chat, t)]).

(** An environment whose admin is user 7, the sender of [text_update]. *)
Definition admin_env (clock : nat -> Z) (token : nat -> string)
    (upstream : nat -> string -> PostOutcome) : Env :=
  mkEnv 7 clock token upstream (fun _ => 42) text_update (fun _ => None) 1000.

(** ** Lemmas on the collection *)

Lemma trunc_ms_gap t : 0 <= t - trunc_ms t < 1000.
Proof.
  unfold trunc_ms. pose proof (Z.mod_pos_bound t 1000 ltac:(lia)) as Hm.
  rewrite (Z.div_mod t 1000) at 1 3 by lia. lia.
Qed.

Lemma trunc_ms_le t : trunc_ms t <= t.
Proof. pose proof (trunc_ms_gap t). lia. Qed.

Lemma trunc_ms_aligned t : t mod 1000 = 0 -> trunc_ms t = t.
Proof.
  intros H. unfold trunc_ms. rewrite (Z.div_mod t 1000) at 2 by lia. lia.
Qed.

Lemma has_key_true k d : has_key k d = true <-> key d = k.
Proof. unfold has_key. apply String.eqb_eq. Qed.

Lemma has_key_false k d : has_key k d = false <-> key d <> k.
Proof. unfold has_key. apply String.eqb_neq. Qed.

Lemma has_key_self d : has_key (key d) d = true.
Proof. apply has_key_true. reflexivity. Qed.

Lemma existsb_has_key k col :
  existsb (has_key k) col = true <-> In k (map key col).
Proof.
  rewrite existsb_exists, in_map_iff. split.
  - intros [d [Hin Hk]]. exists d. split; [now apply has_key_true | exact Hin].
  - intros [d [Hk Hin]]. exists d. split; [exact Hin | now apply has_key_true].
Qed.

Lemma find_absent_key k col (p : KeyDoc -> bool) :
  ~ In k (map key col) ->
  find (fun d => has_key k d && p d) col = None.
Proof.
  induction col as [|a col IH]; simpl; intros Hn; [reflexivity|].
  destruct (has_key k a) eqn:Ha.
  - apply has_key_true in Ha. tauto.
  - simpl. apply IH. tauto.
Qed.

Lemma find_key_active_unique col d :
  unique_keys col -> In d col ->
  find (has_key_active (key d)) col = if active d then Some d else None.
Proof.
  unfold unique_keys, has_key_active.
  induction col as [|a col IH]; simpl; intros Hu Hin; [contradiction|].
  inversion Hu as [|? ? Hna Hu']; subst.
  destruct Hin as [->|Hin].
  - rewrite has_key_self. simpl. destruct (active d); [reflexivity|].
    now apply find_absent_key.
  - assert (Hne : has_key (key d) a = false).
    { apply has_key_false. intros Heq. apply Hna. rewrite Heq.
      now apply in_map. }
    rewrite Hne. simpl. now apply IH.
Qed.

Lemma find_key_unique col d :
  unique_keys col -> In d col -> find (has_key (key d)) col = Some d.
Proof.
  unfold unique_keys.
  induction col as [|a col IH]; simpl; intros Hu Hin; [contradiction|].
  inversion Hu as [|? ? Hna Hu']; subst.
  destruct Hin as [->|Hin].
  - now rewrite has_key_self.
  - assert (Hne : has_key (key d) a = false).
    { apply has_key_false. intros Heq. apply Hna. rewrite Heq.
      now apply in_map. }
    rewrite Hne. now apply IH.
Qed.

Lemma find_update_first_same k f col :
  (forall d, key (f d) = key d) ->
  find (has_key k) (update_first (has_key k) f col)
  = option_map f (find (has_key k) col).
Proof.
  intros Hf. induction col as [|a col IH]; simpl; [reflexivity|].
  destruct (has_key k a) eqn:Ha; simpl.
  - assert (H : has_key k (f a) = true).
    { apply has_key_true. rewrite Hf. now apply has_key_true. }
    now rewrite H.
  - now rewrite Ha.
Qed.

Lemma find_update_first_other k k' f col :
  (forall d, key (f d) = key d) -> k' <> k ->
  find (has_key k') (update_first (has_key k) f col)
  = find (has_key k') col.
Proof.
  intros Hf Hne. induction col as [|a col IH]; simpl; [reflexivity|].
  destruct (has_key k a) eqn:Ha; simpl.
  - apply has_key_true in Ha.
    assert (H1 : has_key k' (f a) = false).
    { apply has_key_false. rewrite Hf. congruence. }
    assert (H2 : has_key k' a = false).
    { apply has_key_false. congruence. }
    now rewrite H1, H2.
  - destruct (has_key k' a); [reflexivity | exact IH].
Qed.

Lemma map_key_update_first p f col :
  (forall d, key (f d) = key d) ->
  map key (update_first p f col) = map key col.
Proof.
  intros Hf. induction col as [|a col IH]; simpl; [reflexivity|].
  destruct (p a); simpl; [now rewrite Hf | now rewrite IH].
Qed.

Lemma map_key_update_all p f col :
  (forall d, key (f d) = key d) ->
  map key (update_all p f col) = map key col.
Proof.
  intros Hf. unfold update_all. rewrite map_map. apply map_ext.
  intros a. destruct (p a); [apply Hf | reflexivity].
Qed.

Lemma update_first_unique col d f :
  unique_keys col -> In d col ->
  update_first (has_key (key d)) f col
  = map (fun x => if has_key (key d) x then f x else x) col.
Proof.
  unfold unique_keys.
  induction col as [|a col IH]; simpl; intros Hu Hin; [contradiction|].
  inversion Hu as [|? ? Hna Hu']; subst.
  destruct Hin as [->|Hin].
  - rewrite has_key_self. f_equal.
    rewrite <- (map_id col) at 1. apply map_ext_in. intros x Hx.
    assert (Hne : has_key (key d) x = false).
    { apply has_key_false. intros Heq. apply Hna. rewrite <- Heq.
      now apply in_map. }
    now rewrite Hne.
  - assert (Hne : has_key (key d) a = false).
    { apply has_key_false. intros Heq. apply Hna. rewrite Heq.
      now apply in_map. }
    rewrite Hne. f_equal. now apply IH.
Qed.

(** ** Lemmas on the upstream call *)

Lemma call_ai_eq E text w :
  call_ai E text w = (call_ai_result E (List.length (posts w)) text, posted text w).
Proof.
  unfold call_ai, call_ai_result, bind, session_post, lift, ret, posted.
  destruct (upstream_at E (List.length (posts w)) text) as [| |st b]; try reflexivity.
  simpl. destruct (raise_for_status st); [|reflexivity].
  destruct (extract_reply b); reflexivity.
Qed.

Lemma call_ai_result_ok E n text r :
  call_ai_result E n text = Ok r <->
  good_answer (upstream_at E n text) = Some (fst r) /\ snd r = elapsed_at E n.
Proof.
  unfold call_ai_result, good_answer, raise_for_status.
  destruct (upstream_at E n text) as [| |st b]; try (split; [discriminate | intros [? _]; discriminate]).
  destruct ((400 <=? st) && (st <? 600)).
  - split; [discriminate|]. intros [H _]. discriminate.
  - destruct (extract_reply b) as [c|e];
      [|split; [discriminate | intros [? _]; discriminate]].
    destruct r as [s' l]. simpl. split.
    + intros H. injection H as -> ->. auto.
    + intros [H ->]. injection H as ->. reflexivity.
Qed.

Lemma call_ai_result_raise E n text e :
  call_ai_result E n text = Raise e -> good_answer (upstream_at E n text) = None.
Proof.
  unfold call_ai_result, good_answer, raise_for_status.
  destruct (upstream_at E n text) as [| |st b]; try reflexivity.
  destruct ((400 <=? st) && (st <? 600)); [reflexivity|].
  destruct (extract_reply b); [discriminate | reflexivity].
Qed.

Lemma truthy_some s : truthy (Some s) = true <-> s <> "".
Proof.
  simpl. rewrite negb_true_iff. apply String.eqb_neq.
Qed.

(** The paths of [ai_api] once both parameters are present. *)
Lemma ai_api_present E k p w :
  k <> "" -> p <> "" ->
  ai_api E (Some k) (Some p) w =
  match find (has_key_active k) (keys_col w) with
  | None => (Ok (json_error "Invalid API key" 401), w)
  | Some d =>
      if expires_at d <? utcnow_at E (ticks w) then
        (Ok (json_error "API key expired" 401),
         with_keys_col (update_first (has_key k) (set_active false) (keys_col w)) (ticked w))
      else
        match call_ai_result E (List.length (posts w)) p with
        | Ok r =>
            (Ok (mkResponse (ReplyBody "Alice AI" (fst r) (snd r)) 200),
             with_keys_col (update_first (has_key k) inc_usage (keys_col w))
                           (posted p (ticked w)))
        | Raise e => (Raise e, posted p (ticked w))
        end
  end.
Proof.
  intros Hk Hp. unfold ai_api.
  apply truthy_some in Hk. apply truthy_some in Hp. rewrite Hk, Hp. simpl.
  unfold bind, find_one, utcnow. simpl.
  destruct (find (has_key_active k) (keys_col w)) as [d|]; [|reflexivity].
  fold (ticked w).
  destruct (expires_at d <? utcnow_at E (ticks w)); [reflexivity|].
  rewrite call_ai_eq. simpl.
  destruct (call_ai_result E (List.length (posts w)) p); reflexivity.
Qed.

Lemma ai_api_absent E apikey prompt w :
  truthy apikey = false \/ truthy prompt = false ->
  ai_api E apikey prompt w = (Ok (json_error "Missing parameters" 400), w).
Proof.
  intros H. unfold ai_api.
  assert (Hc : negb (truthy apikey) || negb (truthy prompt) = true).
  { destruct H as [-> | ->]; simpl; [reflexivity | apply orb_true_r]. }
  now rewrite Hc.
Qed.

Lemma truthy_cases a :
  truthy a = false \/ exists s, a = Some s /\ s <> "".
Proof.
  destruct a as [s|]; [|left; reflexivity].
  destruct (String.eqb s "") eqn:Hs.
  - left. simpl. now rewrite Hs.
  - right. exists s. split; [reflexivity | now apply String.eqb_neq].
Qed.

Lemma find_key_active_some k col d :
  find (has_key_active k) col = Some d ->
  exists d0, find (has_key k) col = Some d0.
Proof.
  unfold has_key_active. induction col as [|a col IH]; simpl; [discriminate|].
  destruct (has_key k a) eqn:Ha.
  - intros _. now exists a.
  - simpl. exact IH.
Qed.

(** The unique index is an invariant of the views and of the key
    operations. *)
Lemma unique_keys_ai_api E apikey prompt w :
  unique_keys (keys_col w) ->
  unique_keys (keys_col (snd (ai_api E apikey prompt w))).
Proof.
  intros Hu.
  destruct (truthy_cases apikey) as [Hk | [sk [-> Hk]]].
  { now rewrite ai_api_absent by (left; exact Hk). }
  destruct (truthy_cases prompt) as [Hp | [sp [-> Hp]]].
  { now rewrite ai_api_absent by (right; exact Hp). }
  rewrite ai_api_present by assumption.
  destruct (find (has_key_active sk) (keys_col w)) as [d|]; [|exact Hu].
  destruct (expires_at d <? utcnow_at E (ticks w)).
  - unfold unique_keys. simpl. now rewrite map_key_update_first.
  - destruct (call_ai_result E (List.length (posts w)) sp); [|exact Hu].
    unfold unique_keys. simpl. now rewrite map_key_update_first.
Qed.

Lemma unique_keys_revoke_by_name n w :
  unique_keys (keys_col w) ->
  unique_keys (keys_col (snd (revoke_by_name n w))).
Proof.
  intros Hu. unfold unique_keys. simpl. now rewrite map_key_update_all.
Qed.

(** ** C1: when usage is metered *)

(** Usage by the outcome of the view: a 200 answer comes with a POST, a
    good answer and one more use of the presented key; an error answer
    comes without a POST; a raise comes after a POST that was not
    answered well; the counters of other keys never move. *)
Lemma ai_api_usage_by_outcome (E : Env) (apikey prompt : option string) (w : World) :
  let k := arg_value apikey in
  let p := arg_value prompt in
  let answer := good_answer (upstream_at E (List.length (posts w)) p) in
  match ai_api E apikey prompt w with
  | (Ok r, w') =>
      (forall k', k' <> k -> usage_of k' w' = usage_of k' w) /\
      if status r =? 200 then
        posts w' = (posts w ++ [p])%list /\
        (exists reply, answer = Some reply) /\
        exists u, usage_of k w = Some u /\ usage_of k w' = Some (u + 1)
      else
        posts w' = posts w /\ usage_of k w' = usage_of k w
  | (Raise e, w') =>
      posts w' = (posts w ++ [p])%list /\ answer = None /\
      forall k', usage_of k' w' = usage_of k' w
  end.
Proof.
  intros k p answer.
  destruct (truthy_cases apikey) as [Hk | [sk [-> Hk]]].
  { rewrite ai_api_absent by (left; exact Hk). simpl. auto. }
  destruct (truthy_cases prompt) as [Hp | [sp [-> Hp]]].
  { rewrite ai_api_absent by (right; exact Hp). simpl. auto. }
  simpl in k, p. subst k p answer.
  rewrite ai_api_present by assumption.
  destruct (find (has_key_active sk) (keys_col w)) as [d|] eqn:Hfind.
  2:{ simpl. auto. }
  destruct (expires_at d <? utcnow_at E (ticks w)).
  { simpl. split.
    - intros k' Hne. unfold usage_of. simpl.
      now rewrite find_update_first_other.
    - split; [reflexivity|]. unfold usage_of. simpl.
      rewrite find_update_first_same by reflexivity.
      destruct (find (has_key sk) (keys_col w)); reflexivity. }
  destruct (call_ai_result E (List.length (posts w)) sp) as [r|e] eqn:Hcall.
  - apply call_ai_result_ok in Hcall. destruct Hcall as [Hans _].
    simpl. split.
    + intros k' Hne. unfold usage_of. simpl.
      now rewrite find_update_first_other.
    + split; [reflexivity|]. split; [now exists (fst r)|].
      destruct (find_key_active_some _ _ _ Hfind) as [d0 Hd0].
      exists (usage d0). unfold usage_of. simpl.
      rewrite find_update_first_same by reflexivity.
      now rewrite Hd0.
  - apply call_ai_result_raise in Hcall. simpl. auto.
Qed.

Lemma status_outside_error_range st :
  ~ (400 <= st < 600) -> (400 <=? st) && (st <? 600) = false.
Proof.
  intros H. destruct (Z.leb_spec 400 st); destruct (Z.ltb_spec st 600);
    try reflexivity. exfalso. apply H. lia.
Qed.

Lemma status_inside_error_range st :
  400 <= st < 600 -> (400 <=? st) && (st <? 600) = true.
Proof.
  intros [H1 H2]. apply Z.leb_le in H1. apply Z.ltb_lt in H2. now rewrite H1, H2.
Qed.

Lemma call_ai_result_good E n text st b reply :
  upstream_at E n text = PostResponse st b ->
  ~ (400 <= st < 600) ->
  extract_reply b = Ok reply ->
  call_ai_result E n text = Ok (reply, elapsed_at E n).
Proof.
  intros Hans Hst Hreply. unfold call_ai_result, raise_for_status.
  now rewrite Hans, (status_outside_error_range st Hst), Hreply.
Qed.

Lemma call_ai_result_bad E n text :
  upstream_at E n text = PostTimeout \/
  upstream_at E n text = PostConnectionError \/
  (exists st b, upstream_at E n text = PostResponse st b /\
                (400 <= st < 600 \/ exists e, extract_reply b = Raise e)) ->
  exists e, call_ai_result E n text = Raise e.
Proof.
  unfold call_ai_result, raise_for_status.
  intros [Hans | [Hans | [st [b [Hans Hbad]]]]]; rewrite Hans.
  - eexists. reflexivity.
  - eexists. reflexivity.
  - destruct ((400 <=? st) && (st <? 600)) eqn:Hrange; [eexists; reflexivity|].
    destruct Hbad as [Hin | [e He]].
    + rewrite (status_inside_error_range st Hin) in Hrange. discriminate.
    + rewrite He. eexists. reflexivity.
Qed.

(** C1, as stated, fails: an upstream answer with a status that is no
    success but lies outside 400..599 does not make the call fail.  With
    status 304 and a completion in the body, the request is answered 200
    and the usage of the key goes from 3 to 4. *)
Lemma ai_api_meters_non_success_status :
  let E := sample_env steady_clock stuck_token not_modified_upstream in
  let w := world_with [sample_doc noon true] in
  upstream_at E 0 "Hello" = PostResponse 304 (Some (completion (JString "Hello"))) /\
  usage_of "tok-A" w = Some 3 /\
  fst (ai_api E (Some "tok-A") (Some "Hello") w)
  = Ok (mkResponse (ReplyBody "Alice AI" (JString "Hello") 42) 200) /\
  usage_of "tok-A" (snd (ai_api E (Some "tok-A") (Some "Hello") w)) = Some 4.
Proof. vm_compute. repeat split; reflexivity. Qed.

(** C1, amended.  In [/ai] the usage counter of the presented key goes up
    by exactly 1 when and only when [call_ai] returns.  For a record of a
    store with unique keys whose key is presented with a prompt: if the
    record is active and not past its expiry, and the upstream answers
    with a status outside 400..599 and a JSON body that holds a value at
    [choices[0].message.content], then the request is answered 200 with
    that value and the record's usage is one more than before, whatever
    the status otherwise is; if the record is inactive or past its
    expiry, the answer is 401, nothing is POSTed and the usage is
    unchanged; if the record is admitted and the upstream times out,
    cannot be reached, answers with a status in 400..599, or with a body
    that is not JSON or lacks that value, the view raises and the usage
    is unchanged.  For every request, of whatever parameters, the
    counters of all other keys are unchanged and the presented key's
    counter moves only with a 200 answer. *)
Theorem ai_api_meters_returned_calls (E : Env) (w : World) :
  (forall apikey prompt,
     let k := arg_value apikey in
     let p := arg_value prompt in
     match ai_api E apikey prompt w with
     | (Ok r, w') =>
         (forall k', k' <> k -> usage_of k' w' = usage_of k' w) /\
         if status r =? 200 then
           posts w' = (posts w ++ [p])%list /\
           exists u, usage_of k w = Some u /\ usage_of k w' = Some (u + 1)
         else
           posts w' = posts w /\ usage_of k w' = usage_of k w
     | (Raise e, w') =>
         posts w' = (posts w ++ [p])%list /\
         forall k', usage_of k' w' = usage_of k' w
     end) /\
  (forall d p,
     unique_keys (keys_col w) -> In d (keys_col w) ->
     key d <> "" -> p <> "" ->
     let now := utcnow_at E (ticks w) in
     let answer := upstream_at E (List.length (posts w)) p in
     let '(r, w') := ai_api E (Some (key d)) (Some p) w in
     (active d = true -> now <= expires_at d ->
      forall st b reply,
        answer = PostResponse st b -> ~ (400 <= st < 600) ->
        extract_reply b = Ok reply ->
        r = Ok (mkResponse (ReplyBody "Alice AI" reply
                              (elapsed_at E (List.length (posts w)))) 200) /\
        usage_of (key d) w' = Some (usage d + 1)) /\
     (active d = false \/ expires_at d < now ->
      (exists msg, r = Ok (mkResponse (ErrorBody msg) 401)) /\
      posts w' = posts w /\
      usage_of (key d) w' = Some (usage d)) /\
     (active d = true -> now <= expires_at d ->
      answer = PostTimeout \/ answer = PostConnectionError \/
      (exists st b, answer = PostResponse st b /\
                    (400 <= st < 600 \/ exists e, extract_reply b = Raise e)) ->
      (exists e, r = Raise e) /\
      posts w' = (posts w ++ [p])%list /\
      usage_of (key d) w' = Some (usage d))).
Proof.
  split.
  - intros apikey prompt k p.
    pose proof (ai_api_usage_by_outcome E apikey prompt w) as H.
    cbv zeta in H. fold k p in H.
    destruct (ai_api E apikey prompt w) as [[r|e] w'].
    + destruct H as [Hother H]. split; [exact Hother|].
      destruct (status r =? 200); [|exact H].
      destruct H as [Hp [_ Hu]]. auto.
    + destruct H as [Hp [_ Hu]]. auto.
  - intros d p Hu Hin Hk Hp now answer.
    rewrite ai_api_present by assumption.
    rewrite find_key_active_unique by assumption.
    assert (Hcur : usage_of (key d) w = Some (usage d)).
    { unfold usage_of. now rewrite find_key_unique. }
    assert (Hinc : forall w0, keys_col w0 = keys_col w ->
              usage_of (key d)
                (with_keys_col (update_first (has_key (key d)) inc_usage (keys_col w)) w0)
              = Some (usage d + 1)).
    { intros w0 _. unfold usage_of. simpl.
      rewrite find_update_first_same by reflexivity.
      now rewrite find_key_unique. }
    assert (Hoff : forall w0,
              usage_of (key d)
                (with_keys_col (update_first (has_key (key d)) (set_active false)
                                  (keys_col w)) w0)
              = Some (usage d)).
    { intros w0. unfold usage_of. simpl.
      rewrite find_update_first_same by reflexivity.
      now rewrite find_key_unique. }
    destruct (active d) eqn:Ha.
    + destruct (Z.ltb_spec (expires_at d) (utcnow_at E (ticks w))) as [Hlt|Hge].
      * split; [intros _ Hnow; unfold now in Hnow; lia|].
        split; [|intros _ Hnow; unfold now in Hnow; lia].
        intros _. split; [eexists; reflexivity|]. split; [reflexivity|].
        apply Hoff.
      * destruct (call_ai_result E (List.length (posts w)) p) as [r|e] eqn:Hcall.
        -- split; [|split].
           ++ intros _ _ st b reply Hans Hst Hreply.
              rewrite (call_ai_result_good E _ p st b reply Hans Hst Hreply) in Hcall.
              injection Hcall as <-. simpl. split; [reflexivity|]. now apply Hinc.
           ++ intros [Habs | Hlt]; [discriminate | unfold now in Hlt; lia].
           ++ intros _ _ Hbad.
              destruct (call_ai_result_bad E _ p Hbad) as [e He]. congruence.
        -- split; [|split].
           ++ intros _ _ st b reply Hans Hst Hreply.
              rewrite (call_ai_result_good E _ p st b reply Hans Hst Hreply) in Hcall.
              discriminate.
           ++ intros [Habs | Hlt]; [discriminate | unfold now in Hlt; lia].
           ++ intros _ _ _. split; [eexists; reflexivity|].
              split; [reflexivity | exact Hcur].
    + split; [intros Habs; discriminate|].
      split; [|intros Habs; discriminate].
      intros _. split; [eexists; reflexivity|]. split; [reflexivity|exact Hcur].
Qed.

Lemma ai_api_meters_returned_calls_witness :
  let E := sample_env steady_clock stuck_token not_modified_upstream in
  let w := world_with [sample_doc noon true] in
  let '(r, w') := ai_api E (Some "tok-A") (Some "Hello") w in
  r = Ok (mkResponse (ReplyBody "Alice AI" (JString "Hello") 42) 200) /\
  usage_of "tok-A" w' = Some 4.
Proof.
  intros E w.
  destruct (ai_api_meters_returned_calls E w) as [_ Hrec].
  specialize (Hrec (sample_doc noon true) "Hello").
  assert (Hu : unique_keys (keys_col w)).
  { unfold unique_keys. simpl. constructor; [simpl; tauto | constructor]. }
  specialize (Hrec Hu (or_introl eq_refl) ltac:(discriminate) ltac:(discriminate)).
  cbv zeta in Hrec. simpl key in Hrec.
  destruct (ai_api E (Some "tok-A") (Some "Hello") w) as [r w'].
  destruct Hrec as [Hgood _].
  apply (Hgood eq_refl ltac:(vm_compute; discriminate)
               304 (Some (completion (JString "Hello"))) (JString "Hello")).
  - reflexivity.
  - lia.
  - reflexivity.
Defined.

(** ** C7: missing parameters *)

(** C7.  When the [apikey] or the [prompt] parameter of a request to [/ai]
    is absent or empty, the view answers 400 "Missing parameters" and
    leaves the world as it was: no store write, no POST upstream, no clock
    reading. *)
Theorem ai_api_missing_parameters (E : Env) (apikey prompt : option string) (w : World) :
  apikey = None \/ apikey = Some "" \/ prompt = None \/ prompt = Some "" ->
  ai_api E apikey prompt w = (Ok (mkResponse (ErrorBody "Missing parameters") 400), w).
Proof.
  intros H. apply ai_api_absent.
  destruct H as [-> | [-> | [-> | ->]]]; auto.
Qed.

Lemma ai_api_missing_parameters_witness :
  ai_api (sample_env steady_clock stuck_token echo_upstream) (Some "tok-A") None
    (world_with [sample_doc noon true])
  = (Ok (mkResponse (ErrorBody "Missing parameters") 400),
     world_with [sample_doc noon true]).
Proof.
  apply (ai_api_missing_parameters
           (sample_env steady_clock stuck_token echo_upstream)
           (Some "tok-A") None (world_with [sample_doc noon true])).
  right. right. left. reflexivity.
Defined.

(** ** C2: who is admitted *)

Lemma app_one_neq {A} (l : list A) (x : A) : l <> (l ++ [x])%list.
Proof.
  intros H. apply (f_equal (@List.length A)) in H.
  rewrite length_app in H. simpl in H. lia.
Qed.

(** C2, as stated, fails: a key whose record is active is admitted when
    it is presented at exactly [now = expires_at]. *)
Lemma admit_iff_strictly_before_expiry_fails :
  ~ (forall (E : Env) (w : World) (d : KeyDoc) (p : string),
        unique_keys (keys_col w) -> In d (keys_col w) ->
        key d <> "" -> p <> "" ->
        (admits E (key d) p w <->
         active d = true /\ utcnow_at E (ticks w) < expires_at d)).
Proof.
  intros H.
  specialize (H (sample_env steady_clock stuck_token echo_upstream)
                (world_with [sample_doc noon true])
                (sample_doc noon true) "Hello").
  assert (Hu : unique_keys (keys_col (world_with [sample_doc noon true]))).
  { unfold unique_keys. simpl. constructor; [simpl; tauto | constructor]. }
  assert (Hin : In (sample_doc noon true) (keys_col (world_with [sample_doc noon true]))).
  { simpl. auto. }
  destruct (H Hu Hin ltac:(discriminate) ltac:(discriminate)) as [Hadm _].
  assert (Ha : admits (sample_env steady_clock stuck_token echo_upstream)
                 (key (sample_doc noon true)) "Hello"
                 (world_with [sample_doc noon true])).
  { unfold admits. vm_compute. reflexivity. }
  destruct (Hadm Ha) as [_ Hlt]. simpl in Hlt. unfold steady_clock in Hlt. lia.
Qed.

(** C2, amended.  For every record of a store with unique keys and every
    request time [now], a request that presents the record's key (with a
    prompt) is admitted if and only if the record is active and
    [now <= expires_at]: the view rejects only when [expires_at < now]. *)
Theorem admit_iff_active_and_not_past_expiry
    (E : Env) (w : World) (d : KeyDoc) (p : string) :
  unique_keys (keys_col w) -> In d (keys_col w) ->
  key d <> "" -> p <> "" ->
  (admits E (key d) p w <->
   active d = true /\ utcnow_at E (ticks w) <= expires_at d).
Proof.
  intros Hu Hin Hk Hp. unfold admits.
  rewrite ai_api_present by assumption.
  rewrite find_key_active_unique by assumption.
  destruct (active d).
  - destruct (Z.ltb_spec (expires_at d) (utcnow_at E (ticks w))) as [Hlt|Hge].
    + simpl. split.
      * intros Habs. exfalso. exact (app_one_neq _ _ Habs).
      * intros [_ Hle]. lia.
    + destruct (call_ai_result E (List.length (posts w)) p); simpl;
        (split; [intros _; split; [reflexivity | lia] | reflexivity]).
  - simpl. split.
    + intros Habs. exfalso. exact (app_one_neq _ _ Habs).
    + intros [Habs _]. discriminate.
Qed.

Lemma admit_iff_active_and_not_past_expiry_witness :
  admits (sample_env steady_clock stuck_token echo_upstream) "tok-A" "Hello"
    (world_with [sample_doc noon true])
  <-> true = true /\ noon <= noon.
Proof.
  apply (admit_iff_active_and_not_past_expiry
           (sample_env steady_clock stuck_token echo_upstream)
           (world_with [sample_doc noon true])
           (sample_doc noon true) "Hello").
  - unfold unique_keys. simpl. constructor; [simpl; tauto | constructor].
  - simpl. left. reflexivity.
  - discriminate.
  - discriminate.
Defined.

(** ** C3: lazy expiry *)

Lemma deactivated_key_is_invalid E w d p :
  unique_keys (keys_col w) -> In d (keys_col w) ->
  key d <> "" -> p <> "" -> active d = false ->
  ai_api E (Some (key d)) (Some p) w = (Ok (json_error "Invalid API key" 401), w).
Proof.
  intros Hu Hin Hk Hp Ha.
  rewrite ai_api_present by assumption.
  rewrite find_key_active_unique by assumption.
  now rewrite Ha.
Qed.

(** C3.  In a store with unique keys, presenting the key of a record that
    is still active but whose [expires_at] lies before the request time
    is answered 401 "API key expired", nothing is POSTed, and the store
    afterwards holds that record with [active = false] and every other
    record as it was; presenting the same key again is answered 401
    "Invalid API key" and changes nothing. *)
Theorem expired_key_is_deactivated_then_invalid
    (E : Env) (w : World) (d : KeyDoc) (p p2 : string) :
  unique_keys (keys_col w) -> In d (keys_col w) ->
  key d <> "" -> p <> "" -> p2 <> "" ->
  active d = true -> expires_at d < utcnow_at E (ticks w) ->
  let '(r1, w1) := ai_api E (Some (key d)) (Some p) w in
  r1 = Ok (mkResponse (ErrorBody "API key expired") 401) /\
  posts w1 = posts w /\
  find (has_key (key d)) (keys_col w1) = Some (set_active false d) /\
  keys_col w1
  = map (fun x => if has_key (key d) x then set_active false x else x) (keys_col w) /\
  ai_api E (Some (key d)) (Some p2) w1
  = (Ok (mkResponse (ErrorBody "Invalid API key") 401), w1).
Proof.
  intros Hu Hin Hk Hp Hp2 Ha Hexp.
  rewrite ai_api_present by assumption.
  rewrite find_key_active_unique by assumption.
  rewrite Ha.
  apply Z.ltb_lt in Hexp. rewrite Hexp.
  set (col1 := update_first (has_key (key d)) (set_active false) (keys_col w)).
  assert (Hfind : find (has_key (key d)) col1 = Some (set_active false d)).
  { unfold col1. rewrite find_update_first_same by reflexivity.
    now rewrite find_key_unique. }
  split; [reflexivity|]. split; [reflexivity|]. split; [exact Hfind|].
  split; [now apply update_first_unique|].
  apply (deactivated_key_is_invalid E _ (set_active false d)); simpl; auto.
  - unfold unique_keys, col1. now rewrite map_key_update_first.
  - apply find_some in Hfind. tauto.
Qed.

Lemma expired_key_is_deactivated_then_invalid_witness :
  let '(r1, w1) :=
    ai_api (sample_env steady_clock stuck_token echo_upstream)
      (Some "tok-A") (Some "Hello") (world_with [sample_doc (noon - 1000) true]) in
  r1 = Ok (mkResponse (ErrorBody "API key expired") 401) /\
  posts w1 = [] /\
  find (has_key "tok-A") (keys_col w1) = Some (sample_doc (noon - 1000) false) /\
  keys_col w1 = [sample_doc (noon - 1000) false] /\
  ai_api (sample_env steady_clock stuck_token echo_upstream)
    (Some "tok-A") (Some "Again") w1
  = (Ok (mkResponse (ErrorBody "Invalid API key") 401), w1).
Proof.
  apply (expired_key_is_deactivated_then_invalid
           (sample_env steady_clock stuck_token echo_upstream)
           (world_with [sample_doc (noon - 1000) true])
           (sample_doc (noon - 1000) true) "Hello" "Again").
  - unfold unique_keys. simpl. constructor; [simpl; tauto | constructor].
  - simpl. left. reflexivity.
  - discriminate.
  - discriminate.
  - discriminate.
  - reflexivity.
  - vm_compute. reflexivity.
Defined.

(** ** C5: revoking by name *)

(** C5, as stated, fails: the count that [revoke_by_name] returns is not
    the number of records with that name.  A record of that name that is
    already inactive is not counted. *)
Lemma revoke_count_is_not_name_count :
  ~ (forall (n : string) (w : World),
        fst (revoke_by_name n w)
        = Ok (Z.of_nat (List.length (filter (has_name n) (keys_col w))))).
Proof.
  intros H.
  specialize (H "alice" (world_with [sample_doc noon false])).
  vm_compute in H. discriminate.
Qed.

(** C5, amended.  For every name, [revoke_by_name] sets [active = false]
    on every record with that name, leaves every other record and every
    other field as they were, and returns the number of records with that
    name that were active before the call; in a store with unique keys,
    presenting the key of any record of that name afterwards is answered
    401 "Invalid API key". *)
Theorem revoke_by_name_deactivates_and_counts_active
    (E : Env) (n : string) (w : World) :
  let '(r, w') := revoke_by_name n w in
  r = Ok (Z.of_nat (List.length
            (filter (fun d => String.eqb (name d) n && active d) (keys_col w)))) /\
  (forall i d, nth_error (keys_col w) i = Some d ->
     nth_error (keys_col w') i
     = Some (if String.eqb (name d) n then set_active false d else d)) /\
  List.length (keys_col w') = List.length (keys_col w) /\
  (forall d', In d' (keys_col w') -> name d' = n -> active d' = false) /\
  (unique_keys (keys_col w) ->
   forall d p, In d (keys_col w) -> name d = n -> key d <> "" -> p <> "" ->
     ai_api E (Some (key d)) (Some p) w'
     = (Ok (mkResponse (ErrorBody "Invalid API key") 401), w')).
Proof.
  unfold revoke_by_name, update_many_deactivate. simpl.
  split; [reflexivity|]. split; [|split; [|split]].
  - intros i d Hd. unfold update_all. rewrite nth_error_map, Hd. reflexivity.
  - unfold update_all. apply length_map.
  - intros d' Hin Hn. unfold update_all in Hin. apply in_map_iff in Hin.
    destruct Hin as [d [Hd _]]. unfold has_name in Hd.
    destruct (String.eqb (name d) n) eqn:Heq.
    + subst d'. reflexivity.
    + subst d'. apply String.eqb_neq in Heq. contradiction.
  - intros Hu d p Hin Hn Hk Hp.
    apply (deactivated_key_is_invalid E _ (set_active false d)); simpl; auto.
    + unfold unique_keys. now rewrite map_key_update_all.
    + unfold update_all. apply in_map_iff. exists d. split; [|exact Hin].
      unfold has_name. apply String.eqb_eq in Hn. now rewrite Hn.
Qed.

Lemma revoke_by_name_deactivates_and_counts_active_witness :
  let E := sample_env steady_clock stuck_token echo_upstream in
  let w := world_with [sample_doc (noon + 5) true] in
  let '(r, w') := revoke_by_name "alice" w in
  r = Ok 1 /\
  keys_col w' = [sample_doc (noon + 5) false] /\
  ai_api E (Some "tok-A") (Some "Hello") w'
  = (Ok (mkResponse (ErrorBody "Invalid API key") 401), w').
Proof.
  intros E w.
  pose proof (revoke_by_name_deactivates_and_counts_active E "alice" w) as H.
  destruct (revoke_by_name "alice" w) as [r w'] eqn:Hrun.
  destruct H as [Hr [_ [_ [_ Hauth]]]].
  split; [exact Hr|].
  split; [injection Hrun as _ <-; reflexivity|].
  injection Hrun as _ <-.
  apply (Hauth ltac:(unfold unique_keys; simpl; constructor; [simpl; tauto | constructor])
               (sample_doc (noon + 5) true) "Hello").
  - simpl. left. reflexivity.
  - reflexivity.
  - discriminate.
  - discriminate.
Defined.

(** ** Lemmas on [create_key] *)

(** One attempt of [create_key]: a clock reading, a token, the expiry,
    the insert. *)
Lemma create_key_attempt E depth n days w :
  create_key E (S depth) n days w =
  let now := utcnow_at E (ticks w) in
  let k := token_at E (draws w) in
  let w1 := mkWorld (keys_col w) (S (ticks w)) (S (draws w)) (posts w) (outbox w) in
  match timedelta_days days with
  | Raise e => (Raise e, w1)
  | Ok td =>
      match datetime_add now td with
      | Raise e => (Raise e, w1)
      | Ok expires =>
          let doc := mkKeyDoc k n now expires true 0 in
          if existsb (has_key k) (keys_col w) then create_key E depth n days w1
          else (Ok doc, with_keys_col (keys_col w ++ [bson_stored doc]) w1)
      end
  end.
Proof.
  simpl. unfold bind, utcnow, gen_key, lift, try_except_duplicate, insert_one, ret.
  simpl.
  destruct (timedelta_days days) as [td|e]; [|reflexivity].
  destruct (datetime_add (utcnow_at E (ticks w)) td) as [expires|e]; [|reflexivity].
  simpl.
  destruct (existsb (has_key (token_at E (draws w))) (keys_col w)); reflexivity.
Qed.

Lemma representable_expiry now days :
  representable now days ->
  timedelta_days days = Ok (days * US_PER_DAY) /\
  datetime_add now (days * US_PER_DAY) = Ok (now + days * US_PER_DAY).
Proof.
  intros [Hd [Hlo Hhi]]. unfold timedelta_days, datetime_add.
  apply Z.leb_le in Hd, Hlo, Hhi. now rewrite Hd, Hlo, Hhi.
Qed.

Lemma not_representable_expiry now days :
  ~ representable now days ->
  timedelta_days days = Raise OverflowError \/
  (timedelta_days days = Ok (days * US_PER_DAY) /\
   datetime_add now (days * US_PER_DAY) = Raise OverflowError).
Proof.
  intros Hn. unfold timedelta_days, datetime_add, representable in *.
  destruct (Z.leb_spec (Z.abs days) TIMEDELTA_MAX_DAYS) as [Hd|Hd]; [|now left].
  right. split; [reflexivity|].
  destruct (Z.leb_spec 0 (now + days * US_PER_DAY)) as [Hlo|Hlo]; [|reflexivity].
  destruct (Z.leb_spec (now + days * US_PER_DAY) DATETIME_MAX) as [Hhi|Hhi];
    [|reflexivity].
  exfalso. apply Hn. auto.
Qed.

(** An expiry that Python cannot represent ends the first attempt. *)
Lemma create_key_overflow E depth n days w :
  ~ representable (utcnow_at E (ticks w)) days ->
  create_key E (S depth) n days w
  = (Raise OverflowError,
     mkWorld (keys_col w) (S (ticks w)) (S (draws w)) (posts w) (outbox w)).
Proof.
  intros Hn. rewrite create_key_attempt. cbv zeta.
  destruct (not_representable_expiry _ _ Hn) as [-> | [-> ->]]; reflexivity.
Qed.

(** After [k] colliding tokens and a fresh one, [create_key] returns on
    its attempt number [k + 1], if the stack allows that many frames. *)
Lemma create_key_after_collisions E n days k :
  forall depth w,
  (k < depth)%nat ->
  (forall j, (j < k)%nat -> In (token_at E (draws w + j)%nat) (map key (keys_col w))) ->
  ~ In (token_at E (draws w + k)%nat) (map key (keys_col w)) ->
  (forall j, (j <= k)%nat -> representable (utcnow_at E (ticks w + j)%nat) days) ->
  create_key E depth n days w
  = (Ok (doc_after E w k n days),
     mkWorld (keys_col w ++ [bson_stored (doc_after E w k n days)])
             (ticks w + k + 1)%nat (draws w + k + 1)%nat (posts w) (outbox w)).
Proof.
  induction k as [|k IH]; intros depth w Hdepth Hcoll Hfresh Hrep.
  - destruct depth as [|depth]; [lia|].
    rewrite create_key_attempt. cbv zeta.
    specialize (Hrep 0%nat (Nat.le_refl _)).
    rewrite !Nat.add_0_r in *.
    destruct (representable_expiry _ _ Hrep) as [-> ->].
    destruct (existsb (has_key (token_at E (draws w))) (keys_col w)) eqn:Hex.
    + apply existsb_has_key in Hex. contradiction.
    + unfold doc_after, with_keys_col. simpl.
      rewrite !Nat.add_0_r, !Nat.add_1_r. reflexivity.
  - destruct depth as [|depth]; [lia|].
    rewrite create_key_attempt. cbv zeta.
    pose proof (Hrep 0%nat (Nat.le_0_l _)) as Hrep0.
    rewrite Nat.add_0_r in Hrep0.
    destruct (representable_expiry _ _ Hrep0) as [-> ->].
    assert (Hex : existsb (has_key (token_at E (draws w))) (keys_col w) = true).
    { apply existsb_has_key. specialize (Hcoll 0%nat (Nat.lt_0_succ _)).
      now rewrite Nat.add_0_r in Hcoll. }
    rewrite Hex.
    rewrite (IH depth); simpl.
    + unfold doc_after. simpl.
      rewrite ?Nat.add_succ_r, ?Nat.add_1_r. reflexivity.
    + lia.
    + intros j Hj. rewrite <- Nat.add_succ_r. apply Hcoll. lia.
    + rewrite <- Nat.add_succ_r. exact Hfresh.
    + intros j Hj. rewrite <- Nat.add_succ_r. apply Hrep. lia.
Qed.

(** Whatever the tokens and the stack, [DuplicateKeyError] does not leave
    [create_key]. *)
Lemma create_key_never_duplicate E n days :
  forall depth w, fst (create_key E depth n days w) <> Raise DuplicateKeyError.
Proof.
  induction depth as [|depth IH]; intros w.
  - simpl. discriminate.
  - rewrite create_key_attempt. cbv zeta.
    unfold timedelta_days, datetime_add.
    destruct (Z.abs days <=? TIMEDELTA_MAX_DAYS); [|simpl; discriminate].
    destruct ((0 <=? utcnow_at E (ticks w) + days * US_PER_DAY)
              && (utcnow_at E (ticks w) + days * US_PER_DAY <=? DATETIME_MAX));
      [|simpl; discriminate].
    destruct (existsb (has_key (token_at E (draws w))) (keys_col w)).
    + apply IH.
    + simpl. discriminate.
Qed.

(** When every token collides, [create_key] attempts as often as the
    stack allows and ends in [RecursionError]. *)
Lemma create_key_all_collide E n days :
  forall depth w,
  (forall j, (j < depth)%nat ->
     In (token_at E (draws w + j)%nat) (map key (keys_col w))) ->
  (forall j, (j < depth)%nat -> representable (utcnow_at E (ticks w + j)%nat) days) ->
  create_key E depth n days w
  = (Raise RecursionError,
     mkWorld (keys_col w) (ticks w + depth)%nat (draws w + depth)%nat
             (posts w) (outbox w)).
Proof.
  induction depth as [|depth IH]; intros w Hcoll Hrep.
  - simpl. unfold raise. rewrite !Nat.add_0_r. now destruct w.
  - rewrite create_key_attempt. cbv zeta.
    pose proof (Hrep 0%nat (Nat.lt_0_succ _)) as Hrep0.
    rewrite Nat.add_0_r in Hrep0.
    destruct (representable_expiry _ _ Hrep0) as [-> ->].
    assert (Hex : existsb (has_key (token_at E (draws w))) (keys_col w) = true).
    { apply existsb_has_key. specialize (Hcoll 0%nat (Nat.lt_0_succ _)).
      now rewrite Nat.add_0_r in Hcoll. }
    rewrite Hex. rewrite IH.
    + simpl. rewrite ?Nat.add_succ_r. reflexivity.
    + intros j Hj. simpl. rewrite <- Nat.add_succ_r. apply Hcoll. lia.
    + intros j Hj. simpl. rewrite <- Nat.add_succ_r. apply Hrep. lia.
Qed.

Lemma find_key_appended k col d :
  ~ In k (map key col) -> key d = k ->
  find (has_key k) (col ++ [d]) = Some d.
Proof.
  intros Hn Hk. induction col as [|a col IH]; simpl.
  - assert (H : has_key k d = true) by now apply has_key_true.
    now rewrite H.
  - simpl in Hn. assert (H : has_key k a = false).
    { apply has_key_false. tauto. }
    rewrite H. apply IH. tauto.
Qed.

Lemma unique_keys_appended col d :
  unique_keys col -> ~ In (key d) (map key col) -> unique_keys (col ++ [d]).
Proof.
  unfold unique_keys. intros Hu Hn. rewrite map_app. simpl.
  apply NoDup_app.
  - exact Hu.
  - constructor; [simpl; tauto | constructor].
  - intros x Hx [<- | []]. contradiction.
Qed.

Lemma unique_keys_create_key E n days :
  forall depth w,
  unique_keys (keys_col w) ->
  unique_keys (keys_col (snd (create_key E depth n days w))).
Proof.
  induction depth as [|depth IH]; intros w Hu; [exact Hu|].
  rewrite create_key_attempt. cbv zeta.
  destruct (timedelta_days days) as [td|e]; [|exact Hu].
  destruct (datetime_add (utcnow_at E (ticks w)) td) as [expires|e]; [|exact Hu].
  destruct (existsb (has_key (token_at E (draws w))) (keys_col w)) eqn:Hex.
  - apply IH. exact Hu.
  - simpl. apply unique_keys_appended; [exact Hu|]. simpl.
    intros Hin. apply existsb_has_key in Hin. congruence.
Qed.

(** ** C4: the retry on a duplicate key *)

(** C4, as stated, fails: no fixed number bounds the attempts of
    [create_key].  When the generator keeps yielding a token that the
    store already holds, the function makes as many attempts as the stack
    has frames. *)
Lemma create_key_attempts_have_no_fixed_bound :
  ~ (exists bound : nat,
       forall (E : Env) (depth : nat) (n : string) (days : Z) (w : World),
         (draws (snd (create_key E depth n days w)) <= draws w + bound)%nat).
Proof.
  intros [bound H].
  specialize (H (sample_env steady_clock stuck_token echo_upstream)
                (S bound) "alice" 30 (world_with [sample_doc noon true])).
  rewrite create_key_all_collide in H.
  - simpl in H. lia.
  - intros j _. simpl. left. reflexivity.
  - intros j _. vm_compute. intuition discriminate.
Qed.

(** C4, amended.  [create_key] answers a duplicate key by calling itself
    with a new token, with no bound of its own on the attempts:
    [DuplicateKeyError] never leaves it; after [k] colliding tokens and a
    fresh one it returns the record of attempt [k + 1], provided the stack
    has more than [k] frames left; and when every token collides it makes
    one attempt per frame and ends in [RecursionError], with the store as
    it was. *)
Theorem create_key_retries_until_fresh_or_stack_end (E : Env) (n : string) (days : Z) :
  (forall depth w, fst (create_key E depth n days w) <> Raise DuplicateKeyError) /\
  (forall k depth w,
     (k < depth)%nat ->
     (forall j, (j < k)%nat ->
        In (token_at E (draws w + j)%nat) (map key (keys_col w))) ->
     ~ In (token_at E (draws w + k)%nat) (map key (keys_col w)) ->
     (forall j, (j <= k)%nat -> representable (utcnow_at E (ticks w + j)%nat) days) ->
     exists doc w',
       create_key E depth n days w = (Ok doc, w') /\
       key doc = token_at E (draws w + k)%nat /\
       draws w' = (draws w + k + 1)%nat) /\
  (forall depth w,
     (forall j, (j < depth)%nat ->
        In (token_at E (draws w + j)%nat) (map key (keys_col w))) ->
     (forall j, (j < depth)%nat ->
        representable (utcnow_at E (ticks w + j)%nat) days) ->
     exists w',
       create_key E depth n days w = (Raise RecursionError, w') /\
       draws w' = (draws w + depth)%nat /\
       keys_col w' = keys_col w).
Proof.
  split; [apply create_key_never_duplicate|]. split.
  - intros k depth w Hd Hc Hf Hr.
    rewrite (create_key_after_collisions E n days k) by assumption.
    eexists. eexists. split; [reflexivity|]. split; reflexivity.
  - intros depth w Hc Hr.
    rewrite create_key_all_collide by assumption.
    eexists. split; [reflexivity|]. split; reflexivity.
Qed.

Lemma representable_noon_30 : representable noon 30.
Proof. vm_compute. intuition discriminate. Qed.

Lemma create_key_retries_until_fresh_or_stack_end_witness :
  (exists doc w',
     create_key (sample_env steady_clock (late_token 6) echo_upstream) 1000
       "alice" 30 (world_with [sample_doc noon true]) = (Ok doc, w') /\
     key doc = "tok-B" /\ draws w' = 7%nat) /\
  (exists w',
     create_key (sample_env steady_clock stuck_token echo_upstream) 1000
       "alice" 30 (world_with [sample_doc noon true]) = (Raise RecursionError, w') /\
     draws w' = 1000%nat /\ keys_col w' = [sample_doc noon true]).
Proof.
  split.
  - destruct (create_key_retries_until_fresh_or_stack_end
                (sample_env steady_clock (late_token 6) echo_upstream) "alice" 30)
      as [_ [Hfresh _]].
    apply (Hfresh 6%nat 1000%nat (world_with [sample_doc noon true])).
    + lia.
    + intros j Hj. simpl. unfold late_token.
      apply Nat.ltb_lt in Hj. rewrite Hj. left. reflexivity.
    + simpl. intros [H | []]. discriminate.
    + intros j _. exact representable_noon_30.
  - destruct (create_key_retries_until_fresh_or_stack_end
                (sample_env steady_clock stuck_token echo_upstream) "alice" 30)
      as [_ [_ Hstuck]].
    apply (Hstuck 1000%nat (world_with [sample_doc noon true])).
    + intros j _. simpl. left. reflexivity.
    + intros j _. exact representable_noon_30.
Defined.

(** ** C6: the record that [create_key] builds *)

(** C6, as stated, fails: not every lifetime yields a record.  With
    [days = 10000000] the expiry lies after year 9999, the addition raises
    [OverflowError], and nothing is returned or persisted. *)
Lemma create_key_overflows_on_long_lifetime :
  let E := sample_env steady_clock stuck_token echo_upstream in
  let out := create_key E 1000 "alice" 10000000 (world_with []) in
  fst out = Raise OverflowError /\ keys_col (snd out) = [].
Proof. vm_compute. split; reflexivity. Qed.

(** C6, amended.  For every name and every lifetime [days] for which
    [now + days] days is a datetime that Python can represent, at the
    clock reading [now] of each attempt: once a generated token is not in
    the store (after [k] collisions, with more than [k] frames of stack),
    [create_key] returns a record with [created_at = now] (the reading of
    that attempt), [expires_at = created_at + days] days, [active = true]
    and [usage = 0].  The store then holds, after the records it held
    before, that record as the collection keeps it: the same key, name,
    flag and counter, and the two datetimes cut to the millisecond, so
    less than a millisecond below the returned ones.  For a lifetime
    whose expiry cannot be represented, [create_key] raises
    [OverflowError] and the store is as it was. *)
Theorem create_key_builds_and_persists
    (E : Env) (n : string) (days : Z) (depth : nat) (w : World) :
  (forall k,
     (k < depth)%nat ->
     (forall j, (j < k)%nat ->
        In (token_at E (draws w + j)%nat) (map key (keys_col w))) ->
     ~ In (token_at E (draws w + k)%nat) (map key (keys_col w)) ->
     (forall j, (j <= k)%nat ->
        representable (utcnow_at E (ticks w + j)%nat) days) ->
     exists doc w',
       create_key E depth n days w = (Ok doc, w') /\
       name doc = n /\
       created_at doc = utcnow_at E (ticks w + k)%nat /\
       expires_at doc = created_at doc + days * US_PER_DAY /\
       active doc = true /\
       usage doc = 0 /\
       keys_col w' = (keys_col w ++ [bson_stored doc])%list /\
       find (has_key (key doc)) (keys_col w') = Some (bson_stored doc) /\
       0 <= created_at doc - created_at (bson_stored doc) < 1000 /\
       0 <= expires_at doc - expires_at (bson_stored doc) < 1000) /\
  ((0 < depth)%nat ->
   ~ representable (utcnow_at E (ticks w)) days ->
   exists w',
     create_key E depth n days w = (Raise OverflowError, w') /\
     keys_col w' = keys_col w).
Proof.
  split.
  - intros k Hd Hc Hf Hr.
    rewrite (create_key_after_collisions E n days k) by assumption.
    eexists. eexists. split; [reflexivity|].
    repeat (split; [reflexivity|]).
    split; [simpl; now apply find_key_appended|].
    split; apply trunc_ms_gap.
  - intros Hd Hn. destruct depth as [|depth]; [lia|].
    rewrite create_key_overflow by exact Hn.
    eexists. split; reflexivity.
Qed.

Lemma create_key_builds_and_persists_witness :
  (exists doc w',
     create_key (sample_env running_clock (late_token 1) echo_upstream) 1000
       "alice" 30 (world_with [sample_doc noon true]) = (Ok doc, w') /\
     name doc = "alice" /\
     created_at doc = noon + 1000000 /\
     expires_at doc = created_at doc + 30 * US_PER_DAY /\
     active doc = true /\
     usage doc = 0 /\
     keys_col w' = [sample_doc noon true; bson_stored doc] /\
     find (has_key (key doc)) (keys_col w') = Some (bson_stored doc) /\
     0 <= created_at doc - created_at (bson_stored doc) < 1000 /\
     0 <= expires_at doc - expires_at (bson_stored doc) < 1000) /\
  (exists w',
     create_key (sample_env running_clock (late_token 1) echo_upstream) 1000
       "alice" 10000000 (world_with [sample_doc noon true])
     = (Raise OverflowError, w') /\
     keys_col w' = [sample_doc noon true]).
Proof.
  split.
  - destruct (create_key_builds_and_persists
                (sample_env running_clock (late_token 1) echo_upstream)
                "alice" 30 1000%nat (world_with [sample_doc noon true]))
      as [Hbuild _].
    apply (Hbuild 1%nat).
    + lia.
    + intros j Hj. simpl. unfold late_token.
      apply Nat.ltb_lt in Hj. rewrite Hj. left. reflexivity.
    + simpl. intros [H | []]. discriminate.
    + intros j Hj. destruct j as [|[|j]]; [| |lia];
        vm_compute; intuition discriminate.
  - destruct (create_key_builds_and_persists
                (sample_env running_clock (late_token 1) echo_upstream)
                "alice" 10000000 1000%nat (world_with [sample_doc noon true]))
      as [_ Hover].
    apply Hover.
    + lia.
    + vm_compute. intros [_ [_ H]]. apply H. reflexivity.
Defined.

(** ** C10: non-positive lifetimes *)

(** C10, as stated, fails twice.  With [days = 0] and a first request at
    the very clock reading of the creation, [expires_at < now] is false
    and the key is admitted; with [days = -1000000] the expiry lies before
    year 1 and [create_key] raises [OverflowError] instead of succeeding. *)
Lemma nonpositive_lifetime_is_not_always_unusable :
  let E := sample_env steady_clock stuck_token echo_upstream in
  (exists doc w1,
     create_key E 1000 "bob" 0 (world_with []) = (Ok doc, w1) /\
     admits E (key doc) "Hello" w1 /\
     fst (ai_api E (Some (key doc)) (Some "Hello") w1)
     = Ok (mkResponse (ReplyBody "Alice AI" (JString "Hello") 42) 200)) /\
  fst (create_key E 1000 "bob" (-1000000) (world_with [])) = Raise OverflowError.
Proof.
  split.
  - eexists. eexists. split; [vm_compute; reflexivity|].
    split; vm_compute; reflexivity.
  - vm_compute. reflexivity.
Qed.

Lemma past_expiry_not_admitted E w d p :
  unique_keys (keys_col w) -> In d (keys_col w) ->
  key d <> "" -> p <> "" ->
  expires_at d < utcnow_at E (ticks w) ->
  ~ admits E (key d) p w.
Proof.
  intros Hu Hin Hk Hp Hexp. unfold admits.
  rewrite ai_api_present by assumption.
  rewrite find_key_active_unique by assumption.
  apply Z.ltb_lt in Hexp.
  destruct (active d); [rewrite Hexp|]; simpl; apply app_one_neq.
Qed.

(** C10, amended.  [create_key] does not validate the lifetime: for every
    name and every [days <= 0] for which [now + days] days is still a
    datetime that Python can represent, and with a fresh, non-empty token,
    it succeeds and persists a record with [active = true] and
    [expires_at <= created_at]; the store holds it with the datetimes cut
    to the millisecond.  A request that presents the key at a clock
    reading later than [created_at] is not admitted: on the store as
    [create_key] left it, the request takes the expired branch, is
    answered 401 "API key expired" and deactivates the record; and in any
    store with unique keys that holds a record of that key whose expiry
    is not later than the returned one, active or not, the request does
    not reach the upstream. *)
Theorem nonpositive_lifetime_key_expires_on_later_use
    (E : Env) (n : string) (days : Z) (depth : nat) (w : World) :
  days <= 0 -> (0 < depth)%nat ->
  unique_keys (keys_col w) ->
  ~ In (token_at E (draws w)) (map key (keys_col w)) ->
  token_at E (draws w) <> "" ->
  representable (utcnow_at E (ticks w)) days ->
  exists doc w1,
    create_key E depth n days w = (Ok doc, w1) /\
    active doc = true /\
    expires_at doc <= created_at doc /\
    find (has_key (key doc)) (keys_col w1) = Some (bson_stored doc) /\
    (forall p wx,
       p <> "" -> keys_col wx = keys_col w1 ->
       created_at doc < utcnow_at E (ticks wx) ->
       let '(r, w2) := ai_api E (Some (key doc)) (Some p) wx in
       r = Ok (mkResponse (ErrorBody "API key expired") 401) /\
       posts w2 = posts wx /\
       find (has_key (key doc)) (keys_col w2)
       = Some (set_active false (bson_stored doc))) /\
    (forall p wx d,
       p <> "" -> unique_keys (keys_col wx) -> In d (keys_col wx) ->
       key d = key doc -> expires_at d <= expires_at doc ->
       created_at doc < utcnow_at E (ticks wx) ->
       ~ admits E (key doc) p wx).
Proof.
  intros Hdays Hdepth Hu Hfresh Htok Hrep.
  assert (Hrun := create_key_after_collisions E n days 0 depth w Hdepth).
  rewrite !Nat.add_0_r in Hrun.
  rewrite Hrun; clear Hrun.
  2:{ intros j Hj. lia. }
  2:{ exact Hfresh. }
  2:{ intros j Hj. replace j with 0%nat by lia. now rewrite Nat.add_0_r. }
  remember (doc_after E w 0 n days) as doc eqn:Hdoc.
  assert (Hkey : key doc = token_at E (draws w)).
  { rewrite Hdoc. unfold doc_after. simpl. now rewrite Nat.add_0_r. }
  assert (Hle : expires_at doc <= created_at doc).
  { rewrite Hdoc. unfold doc_after, US_PER_DAY. simpl. lia. }
  assert (Hact : active doc = true) by now rewrite Hdoc.
  remember (bson_stored doc) as sdoc eqn:Hsdoc.
  assert (Hskey : key sdoc = key doc) by now rewrite Hsdoc.
  assert (Hsact : active sdoc = true) by now rewrite Hsdoc.
  assert (Hsexp : expires_at sdoc <= expires_at doc).
  { rewrite Hsdoc. simpl. apply trunc_ms_le. }
  assert (Hfind : find (has_key (key doc)) (keys_col w ++ [sdoc]) = Some sdoc).
  { apply find_key_appended; [now rewrite Hkey | exact Hskey]. }
  assert (Hu1 : unique_keys (keys_col w ++ [sdoc])).
  { apply unique_keys_appended; [exact Hu | now rewrite Hskey, Hkey]. }
  exists doc. eexists. split; [reflexivity|]. rewrite <- Hsdoc. simpl.
  split; [exact Hact|]. split; [exact Hle|]. split; [exact Hfind|]. split.
  - intros p wx Hp Hcol Hlater.
    assert (Hin : In sdoc (keys_col wx)).
    { rewrite Hcol. apply in_or_app. right. simpl. auto. }
    rewrite <- Hskey.
    rewrite ai_api_present by (try assumption; now rewrite Hskey, Hkey).
    rewrite find_key_active_unique by (try assumption; now rewrite Hcol).
    rewrite Hsact.
    assert (Hexp : (expires_at sdoc <? utcnow_at E (ticks wx)) = true).
    { apply Z.ltb_lt. lia. }
    rewrite Hexp. split; [reflexivity|]. split; [reflexivity|].
    simpl. rewrite find_update_first_same by reflexivity.
    rewrite Hcol, Hskey, Hfind. reflexivity.
  - intros p wx d Hp Hux Hin Hk Hexp Hlater.
    rewrite <- Hk.
    apply past_expiry_not_admitted; try assumption.
    + now rewrite Hk, Hkey.
    + lia.
Qed.

Lemma nonpositive_lifetime_key_expires_on_later_use_witness :
  let E := sample_env running_clock stuck_token echo_upstream in
  exists doc w1,
    create_key E 1000 "bob" (-1) (world_with []) = (Ok doc, w1) /\
    active doc = true /\
    expires_at doc <= created_at doc /\
    (let '(r, w2) := ai_api E (Some (key doc)) (Some "Hello") w1 in
     r = Ok (mkResponse (ErrorBody "API key expired") 401) /\
     posts w2 = posts w1 /\
     find (has_key (key doc)) (keys_col w2)
     = Some (set_active false (bson_stored doc))) /\
    ~ admits E (key doc) "Hello" w1.
Proof.
  intros E.
  destruct (nonpositive_lifetime_key_expires_on_later_use
              E "bob" (-1) 1000%nat (world_with []))
    as [doc [w1 [Hrun [Hact [Hle [Hfind [Hfirst Hnever]]]]]]].
  - lia.
  - lia.
  - constructor.
  - simpl. tauto.
  - discriminate.
  - vm_compute. intuition discriminate.
  - assert (Hw1 : w1 = snd (create_key E 1000 "bob" (-1) (world_with [])))
      by now rewrite Hrun.
    assert (Hdoc : Ok doc = fst (create_key E 1000 "bob" (-1) (world_with [])))
      by now rewrite Hrun.
    vm_compute in Hw1. vm_compute in Hdoc. injection Hdoc as Hdoc.
    exists doc, w1. split; [exact Hrun|]. split; [exact Hact|].
    split; [exact Hle|]. split.
    + apply (Hfirst "Hello" w1); [discriminate | reflexivity |].
      subst doc w1. vm_compute. reflexivity.
    + apply (Hnever "Hello" w1 (bson_stored doc)); try reflexivity.
      * discriminate.
      * subst doc w1. unfold unique_keys. simpl.
        constructor; [simpl; tauto | constructor].
      * subst doc w1. vm_compute. left. reflexivity.
      * subst doc. vm_compute. discriminate.
      * subst doc w1. vm_compute. reflexivity.
Defined.

(** ** Lemmas on the bot *)

Lemma chat_handler_eq E m w :
  chat_handler E m w =
  match call_ai_result E (List.length (posts w)) (text_of m) with
  | Ok r =>
      (Ok tt,
       mkWorld (keys_col w) (ticks w) (draws w) (posts w ++ [text_of m])
               (outbox w ++ [(chat_id m, PlainText (fst r))]))
  | Raise e => (Raise e, posted (text_of m) w)
  end.
Proof.
  unfold chat_handler, bind. rewrite call_ai_eq.
  destruct (call_ai_result E (List.length (posts w)) (text_of m)); reflexivity.
Qed.

Lemma commands_filter_non_command cmds m s :
  text m = Some s -> startswith "/" s = false -> commands_filter cmds m = false.
Proof.
  intros Ht Hs. unfold commands_filter, extract_command. now rewrite Ht, Hs.
Qed.

(** A text that does not start with a slash is dispatched to
    [chat_handler], whoever sent it. *)
Lemma process_new_message_chat E m s :
  text m = Some s -> startswith "/" s = false ->
  process_new_message E m = chat_handler E m.
Proof.
  intros Ht Hs. unfold process_new_message, message_handlers. simpl.
  rewrite !(commands_filter_non_command _ m s Ht Hs).
  unfold chat_filter. rewrite Ht, Hs. reflexivity.
Qed.

Lemma telegram_webhook_eq E data u w :
  de_json E data = Ok u ->
  telegram_webhook E data w =
  match process_new_updates E u w with
  | (Ok _, w') => (Ok (mkResponse (TextBody "OK") 200), w')
  | (Raise e, w') => (Raise e, w')
  end.
Proof.
  intros Hu. unfold telegram_webhook, bind, lift, ret. rewrite Hu.
  destruct (process_new_updates E u w) as [[[]|e] w']; reflexivity.
Qed.

(** ** C8: the webhook answer *)

(** C8, as stated, fails: when the dispatched handler raises, the view
    raises too and no 200 OK is returned.  Here a plain text reaches
    [chat_handler] and the upstream call times out. *)
Lemma telegram_webhook_raises_with_handler :
  let E := sample_env steady_clock stuck_token silent_upstream in
  exists u,
    de_json E "hi" = Ok u /\
    fst (process_new_updates E u (world_with [])) = Raise Timeout /\
    fst (telegram_webhook E "hi" (world_with [])) = Raise Timeout.
Proof.
  eexists. split; [reflexivity|]. split; vm_compute; reflexivity.
Qed.

(** C8, amended.  Once the payload is parsed and handed to the
    dispatcher, [/telegram] answers 200 with body OK exactly when the
    dispatched handler returns; what a handler raises is raised by the
    view.  In particular an update without a message is answered 200 OK,
    and a text that does not start with a slash is answered 200 OK if and
    only if the upstream call of [chat_handler] succeeds. *)
Theorem telegram_webhook_ok_iff_handler_returns
    (E : Env) (data : string) (u : Update) (w : World) :
  de_json E data = Ok u ->
  (forall w',
     process_new_updates E u w = (Ok tt, w') <->
     telegram_webhook E data w = (Ok (mkResponse (TextBody "OK") 200), w')) /\
  (forall e w',
     process_new_updates E u w = (Raise e, w') <->
     telegram_webhook E data w = (Raise e, w')) /\
  (message u = None ->
     telegram_webhook E data w = (Ok (mkResponse (TextBody "OK") 200), w)) /\
  (forall m s,
     message u = Some m -> text m = Some s -> startswith "/" s = false ->
     ((exists w', telegram_webhook E data w
                  = (Ok (mkResponse (TextBody "OK") 200), w')) <->
      good_answer (upstream_at E (List.length (posts w)) s) <> None)).
Proof.
  intros Hu. rewrite (telegram_webhook_eq E data u w Hu).
  split; [|split; [|split]].
  - intros w'. destruct (process_new_updates E u w) as [[[]|e] w1]; simpl.
    + split; intros H; injection H as ->; reflexivity.
    + split; discriminate.
  - intros e w'. destruct (process_new_updates E u w) as [[[]|e1] w1]; simpl.
    + split; discriminate.
    + split; intros H; injection H as -> ->; reflexivity.
  - intros Hm. unfold process_new_updates. rewrite Hm. reflexivity.
  - intros m s Hm Ht Hs. unfold process_new_updates. rewrite Hm.
    rewrite (process_new_message_chat E m s Ht Hs), chat_handler_eq.
    unfold text_of. rewrite Ht. simpl.
    destruct (call_ai_result E (List.length (posts w)) s) as [r|e] eqn:Hc.
    + apply call_ai_result_ok in Hc. destruct Hc as [Hc _]. rewrite Hc.
      split; [discriminate | intros _; eexists; reflexivity].
    + apply call_ai_result_raise in Hc. rewrite Hc.
      split; [intros [w' H]; discriminate | congruence].
Qed.

Lemma telegram_webhook_ok_iff_handler_returns_witness :
  let E := sample_env steady_clock stuck_token echo_upstream in
  (exists w', telegram_webhook E "hi" (world_with [])
              = (Ok (mkResponse (TextBody "OK") 200), w')) <->
  good_answer (upstream_at E 0 "hi") <> None.
Proof.
  intros E.
  destruct (telegram_webhook_ok_iff_handler_returns
              E "hi" (mkUpdate 1 (Some (mkMessage 7 70 (Some "hi")))) (world_with []))
    as [_ [_ [_ Hchat]]].
  - reflexivity.
  - apply (Hchat (mkMessage 7 70 (Some "hi")) "hi"); reflexivity.
Defined.

(** ** C9: the chat path has no admin check *)

(** C9, as stated, fails: a plain text does cause the upstream call, but
    a reply goes back to the chat only when that call succeeds.  Here the
    upstream times out; the text was POSTed and nothing was sent. *)
Lemma chat_text_without_reply :
  let E := sample_env steady_clock stuck_token silent_upstream in
  let out := process_new_message E (mkMessage 7 70 (Some "hi")) (world_with []) in
  is_admin E 7 = false /\
  fst out = Raise Timeout /\ posts (snd out) = ["hi"] /\ outbox (snd out) = [].
Proof. vm_compute. repeat split; reflexivity. Qed.

(** C9, amended.  Every text message that does not start with a slash,
    from any sender (the sender's id is not looked at), is dispatched to
    [chat_handler], which POSTs exactly that text upstream and, when the
    call succeeds, sends the upstream reply to the chat of the message;
    when the call fails the handler raises and sends nothing.  Each of the
    six admin command handlers returns without any effect for a sender
    that is not the admin. *)
Theorem chat_text_reaches_upstream_without_admin_check
    (E : Env) (m : Message) (s : string) (w : World) :
  text m = Some s -> startswith "/" s = false ->
  (let '(r, w') := process_new_message E m w in
   posts w' = (posts w ++ [s])%list /\
   keys_col w' = keys_col w /\
   match good_answer (upstream_at E (List.length (posts w)) s) with
   | Some reply =>
       r = Ok tt /\ outbox w' = (outbox w ++ [(chat_id m, PlainText reply)])%list
   | None => (exists e, r = Raise e) /\ outbox w' = outbox w
   end) /\
  (forall m' w', is_admin E (from_id m') = false ->
     genkey_cmd E m' w' = (Ok tt, w') /\
     list_cmd E m' w' = (Ok tt, w') /\
     usage_cmd E m' w' = (Ok tt, w') /\
     rework_cmd E m' w' = (Ok tt, w') /\
     delkey_cmd E m' w' = (Ok tt, w') /\
     test_cmd E m' w' = (Ok tt, w')).
Proof.
  intros Ht Hs. split.
  - rewrite (process_new_message_chat E m s Ht Hs), chat_handler_eq.
    unfold text_of. rewrite Ht. simpl.
    destruct (call_ai_result E (List.length (posts w)) s) as [r|e] eqn:Hc.
    + apply call_ai_result_ok in Hc. destruct Hc as [Hc _]. rewrite Hc.
      simpl. auto.
    + apply call_ai_result_raise in Hc. rewrite Hc. simpl.
      repeat split; try reflexivity. now exists e.
  - intros m' w' Hna.
    unfold genkey_cmd, list_cmd, usage_cmd, rework_cmd, delkey_cmd, test_cmd.
    rewrite Hna. simpl. repeat split; reflexivity.
Qed.

Lemma chat_text_reaches_upstream_without_admin_check_witness :
  let E := sample_env steady_clock stuck_token echo_upstream in
  is_admin E 7 = false /\
  (let '(r, w') := process_new_message E (mkMessage 7 70 (Some "hi")) (world_with []) in
   posts w' = ["hi"] /\
   keys_col w' = [] /\
   r = Ok tt /\ outbox w' = [(70, PlainText (JString "hi"))]) /\
  genkey_cmd E (mkMessage 7 70 (Some "/genkey bob 30")) (world_with [])
  = (Ok tt, world_with []).
Proof.
  intros E.
  destruct (chat_text_reaches_upstream_without_admin_check
              E (mkMessage 7 70 (Some "hi")) "hi" (world_with []))
    as [Hchat Hadmin]; [reflexivity | reflexivity |].
  split; [reflexivity|]. split.
  - destruct (process_new_message E (mkMessage 7 70 (Some "hi")) (world_with []))
      as [r w'].
    destruct Hchat as [Hp [Hk Hr]]. simpl in Hr. tauto.
  - apply (Hadmin (mkMessage 7 70 (Some "/genkey bob 30")) (world_with [])).
    reflexivity.
Defined.

(** * Further properties of the module *)

(** ** [/ai]: what a request can and cannot change *)

Lemma ages_to_refl d : ages_to d d.
Proof. unfold ages_to. repeat split; [auto | lia]. Qed.

Lemma ages_to_update_first p f col :
  (forall d, ages_to d (f d)) ->
  Forall2 ages_to col (update_first p f col).
Proof.
  intros Hf. induction col as [|a col IH]; simpl; [constructor|].
  destruct (p a).
  - constructor; [apply Hf|].
    clear IH. induction col; constructor; [apply ages_to_refl | assumption].
  - constructor; [apply ages_to_refl | exact IH].
Qed.

Lemma ages_to_same col : Forall2 ages_to col col.
Proof. induction col; constructor; [apply ages_to_refl | assumption]. Qed.

(** X1.  Whatever the parameters, the store and the upstream answer, a
    request to [/ai] neither adds nor removes nor reorders records and
    rewrites no key, name, creation or expiry time; a record can only go
    from active to inactive and its usage can only grow.  The request
    generates no token and sends no bot message. *)
Theorem ai_api_only_ages_records (E : Env) (apikey prompt : option string) (w : World) :
  let w' := snd (ai_api E apikey prompt w) in
  Forall2 ages_to (keys_col w) (keys_col w') /\
  draws w' = draws w /\ outbox w' = outbox w.
Proof.
  destruct (truthy_cases apikey) as [Hk | [sk [-> Hk]]].
  { rewrite ai_api_absent by (left; exact Hk). simpl. auto using ages_to_same. }
  destruct (truthy_cases prompt) as [Hp | [sp [-> Hp]]].
  { rewrite ai_api_absent by (right; exact Hp). simpl. auto using ages_to_same. }
  rewrite ai_api_present by assumption.
  destruct (find (has_key_active sk) (keys_col w)) as [d|].
  2:{ simpl. auto using ages_to_same. }
  destruct (expires_at d <? utcnow_at E (ticks w)).
  { simpl. split; [|auto]. apply ages_to_update_first.
    intros x. unfold ages_to. simpl. repeat split; [discriminate | lia]. }
  destruct (call_ai_result E (List.length (posts w)) sp); simpl.
  - split; [|auto]. apply ages_to_update_first.
    intros x. unfold ages_to. simpl. repeat split; [auto | lia].
  - auto using ages_to_same.
Qed.

(** X2.  A key that no record of the store carries is answered 401
    "Invalid API key" without any effect: no clock reading, no POST, no
    write. *)
Theorem ai_api_unknown_key (E : Env) (k p : string) (w : World) :
  k <> "" -> p <> "" ->
  ~ In k (map key (keys_col w)) ->
  ai_api E (Some k) (Some p) w
  = (Ok (mkResponse (ErrorBody "Invalid API key") 401), w).
Proof.
  intros Hk Hp Hn. rewrite ai_api_present by assumption.
  unfold has_key_active. now rewrite find_absent_key.
Qed.

Lemma ai_api_unknown_key_witness :
  ai_api (sample_env steady_clock stuck_token echo_upstream)
    (Some "tok-Z") (Some "Hello") (world_with [sample_doc noon true])
  = (Ok (mkResponse (ErrorBody "Invalid API key") 401),
     world_with [sample_doc noon true]).
Proof.
  apply (ai_api_unknown_key (sample_env steady_clock stuck_token echo_upstream)
           "tok-Z" "Hello" (world_with [sample_doc noon true])).
  - discriminate.
  - discriminate.
  - simpl. intros [H | []]. discriminate.
Defined.

Lemma ai_api_usage_step E k p w :
  usage_of k (snd (ai_api E (Some k) (Some p) w))
  = if is_ok_200 (fst (ai_api E (Some k) (Some p) w))
    then option_map (fun u => u + 1) (usage_of k w)
    else usage_of k w.
Proof.
  destruct (truthy_cases (Some k)) as [Hk | [sk [Hsk Hk]]].
  { now rewrite ai_api_absent by (left; exact Hk). }
  injection Hsk as <-.
  destruct (truthy_cases (Some p)) as [Hp | [sp [Hsp Hp]]].
  { now rewrite ai_api_absent by (right; exact Hp). }
  injection Hsp as <-.
  rewrite ai_api_present by assumption.
  destruct (find (has_key_active k) (keys_col w)) as [d|]; [|reflexivity].
  destruct (expires_at d <? utcnow_at E (ticks w)).
  { simpl. unfold usage_of. simpl. rewrite find_update_first_same by reflexivity.
    destruct (find (has_key k) (keys_col w)); reflexivity. }
  destruct (call_ai_result E (List.length (posts w)) p); simpl; [|reflexivity].
  unfold usage_of. simpl. rewrite find_update_first_same by reflexivity.
  destruct (find (has_key k) (keys_col w)); reflexivity.
Qed.

(** X3.  Over any run of [/ai] requests that present the same key, the
    usage stored for the key ends at its value before the run plus the
    number of requests answered 200; a key without a record stays without
    one. *)
Theorem serve_counts_successes (E : Env) (k : string) (prompts : list string) :
  forall w,
  usage_of k (snd (serve E k prompts w))
  = option_map (fun u => u + successes (fst (serve E k prompts w))) (usage_of k w).
Proof.
  induction prompts as [|p rest IH]; intros w.
  - simpl. unfold successes. simpl.
    destruct (usage_of k w); simpl; [f_equal; lia | reflexivity].
  - simpl.
    pose proof (ai_api_usage_step E k p w) as Hstep.
    destruct (ai_api E (Some k) (Some p) w) as [r w1].
    specialize (IH w1).
    destruct (serve E k rest w1) as [rs w2].
    simpl in *. rewrite IH, Hstep. unfold successes. simpl.
    destruct (is_ok_200 r); destruct (usage_of k w); simpl;
      try reflexivity; f_equal; lia.
Qed.

(** ** [create_key] and [revoke_by_name] *)

(** X4.  Whatever the tokens, the clock and the stack: when [create_key]
    returns a record, that record carries the given name, is active with
    usage 0, expires [days] days after its creation time and has a key
    that the store did not hold; the store then holds one record more,
    appended: the returned one as the collection keeps it, with its two
    datetimes cut to the millisecond.  When [create_key] raises, the
    exception is [OverflowError] or [RecursionError] and the store is as
    it was.  It never POSTs and never sends a bot message, and it makes
    at most one attempt per stack frame. *)
Theorem create_key_outcomes (E : Env) (n : string) (days : Z) :
  forall depth w,
  let '(r, w') := create_key E depth n days w in
  match r with
  | Ok doc =>
      keys_col w' = (keys_col w ++ [bson_stored doc])%list /\
      ~ In (key doc) (map key (keys_col w)) /\
      name doc = n /\ active doc = true /\ usage doc = 0 /\
      expires_at doc = created_at doc + days * US_PER_DAY
  | Raise e =>
      (e = OverflowError \/ e = RecursionError) /\ keys_col w' = keys_col w
  end /\
  posts w' = posts w /\ outbox w' = outbox w /\
  (draws w <= draws w' <= draws w + depth)%nat.
Proof.
  induction depth as [|depth IH]; intros w.
  - simpl. repeat split; auto; lia.
  - rewrite create_key_attempt. cbv zeta.
    unfold timedelta_days, datetime_add.
    destruct (Z.abs days <=? TIMEDELTA_MAX_DAYS).
    2:{ simpl. repeat split; auto; lia. }
    destruct ((0 <=? utcnow_at E (ticks w) + days * US_PER_DAY)
              && (utcnow_at E (ticks w) + days * US_PER_DAY <=? DATETIME_MAX)).
    2:{ simpl. repeat split; auto; lia. }
    destruct (existsb (has_key (token_at E (draws w))) (keys_col w)) eqn:Hex.
    + specialize (IH (mkWorld (keys_col w) (S (ticks w)) (S (draws w))
                              (posts w) (outbox w))).
      destruct (create_key E depth n days _) as [r w'].
      simpl in IH. destruct IH as [Hr [Hp [Ho Hd]]].
      repeat split; auto; lia.
    + cbn [fst snd keys_col posts outbox draws with_keys_col
           key name active usage created_at expires_at].
      split; [|repeat split; auto; lia].
      split; [reflexivity|]. split; [|auto].
      intros Hin. apply existsb_has_key in Hin. congruence.
Qed.

(** X5.  A key created with a fresh, non-empty token is usable at once
    and until its stored expiry: on the store as [create_key] left it, a
    request that presents the key with a prompt is admitted if and only
    if the clock reading is not past the expiry that the collection
    keeps, which is [created_at + days] days cut to the millisecond;
    when it is admitted and the upstream answers well, the request is
    answered 200 with the upstream content and the usage of the new key
    becomes 1. *)
Theorem created_key_is_admitted
    (E : Env) (n : string) (days : Z) (depth : nat) (w : World)
    (p : string) (reply : Json) :
  (0 < depth)%nat ->
  unique_keys (keys_col w) ->
  ~ In (token_at E (draws w)) (map key (keys_col w)) ->
  token_at E (draws w) <> "" ->
  representable (utcnow_at E (ticks w)) days ->
  p <> "" ->
  exists doc w1,
    create_key E depth n days w = (Ok doc, w1) /\
    forall wx,
      keys_col wx = keys_col w1 ->
      (admits E (key doc) p wx <->
       utcnow_at E (ticks wx) <= trunc_ms (created_at doc + days * US_PER_DAY)) /\
      (utcnow_at E (ticks wx) <= trunc_ms (created_at doc + days * US_PER_DAY) ->
       good_answer (upstream_at E (List.length (posts wx)) p) = Some reply ->
       let '(r, w2) := ai_api E (Some (key doc)) (Some p) wx in
       r = Ok (mkResponse (ReplyBody "Alice AI" reply
                             (elapsed_at E (List.length (posts wx)))) 200) /\
       usage_of (key doc) w2 = Some 1).
Proof.
  intros Hdepth Hu Hfresh Htok Hrep Hp.
  assert (Hrun := create_key_after_collisions E n days 0 depth w Hdepth).
  rewrite !Nat.add_0_r in Hrun.
  rewrite Hrun; clear Hrun.
  2:{ intros j Hj. lia. }
  2:{ exact Hfresh. }
  2:{ intros j Hj. replace j with 0%nat by lia. now rewrite Nat.add_0_r. }
  remember (doc_after E w 0 n days) as doc eqn:Hdoc.
  assert (Hkey : key doc = token_at E (draws w)).
  { rewrite Hdoc. unfold doc_after. simpl. now rewrite Nat.add_0_r. }
  assert (Hexp : expires_at doc = created_at doc + days * US_PER_DAY).
  { now rewrite Hdoc. }
  remember (bson_stored doc) as sdoc eqn:Hsdoc.
  assert (Hskey : key sdoc = key doc) by now rewrite Hsdoc.
  assert (Hsact : active sdoc = true) by now rewrite Hsdoc, Hdoc.
  assert (Hsuse : usage sdoc = 0) by now rewrite Hsdoc, Hdoc.
  assert (Hsexp : expires_at sdoc = trunc_ms (created_at doc + days * US_PER_DAY)).
  { rewrite Hsdoc. simpl. now rewrite Hexp. }
  assert (Hfind : find (has_key (key sdoc)) (keys_col w ++ [sdoc]) = Some sdoc).
  { apply find_key_appended; [now rewrite Hskey, Hkey | reflexivity]. }
  assert (Hu1 : unique_keys (keys_col w ++ [sdoc])).
  { apply unique_keys_appended; [exact Hu | now rewrite Hskey, Hkey]. }
  exists doc. eexists. split; [reflexivity|]. simpl.
  intros wx Hcol.
  assert (Hin : In sdoc (keys_col wx)).
  { rewrite Hcol. apply in_or_app. right. simpl. auto. }
  assert (Hk : key sdoc <> "") by now rewrite Hskey, Hkey.
  assert (Hux : unique_keys (keys_col wx)) by now rewrite Hcol.
  rewrite <- Hsexp, <- Hskey.
  split.
  - unfold admits. rewrite ai_api_present by assumption.
    rewrite find_key_active_unique by assumption.
    rewrite Hsact.
    destruct (Z.ltb_spec (expires_at sdoc) (utcnow_at E (ticks wx))) as [Hlt|Hge].
    + simpl. split; [|lia]. intros Habs. exfalso. exact (app_one_neq _ _ Habs).
    + destruct (call_ai_result E (List.length (posts wx)) p); simpl;
        (split; [intros _; exact Hge | reflexivity]).
  - intros Hnow Hgood.
    assert (Hnot : (expires_at sdoc <? utcnow_at E (ticks wx)) = false)
      by (apply Z.ltb_ge; exact Hnow).
    rewrite ai_api_present by assumption.
    rewrite find_key_active_unique by assumption.
    rewrite Hsact, Hnot.
    destruct (call_ai_result E (List.length (posts wx)) p) as [r|e] eqn:Hc.
    + apply call_ai_result_ok in Hc. destruct Hc as [Hc1 Hc2].
      rewrite Hgood in Hc1. injection Hc1 as Hc1.
      rewrite <- Hc1, Hc2. split; [reflexivity|].
      unfold usage_of. simpl. rewrite find_update_first_same by reflexivity.
      rewrite Hcol, Hfind. simpl. now rewrite Hsuse.
    + apply call_ai_result_raise in Hc. congruence.
Qed.

Lemma created_key_is_admitted_witness :
  let E := sample_env running_clock stuck_token echo_upstream in
  exists doc w1,
    create_key E 1000 "alice" 30 (world_with []) = (Ok doc, w1) /\
    admits E (key doc) "Hello" w1 /\
    (let '(r, w2) := ai_api E (Some (key doc)) (Some "Hello") w1 in
     r = Ok (mkResponse (ReplyBody "Alice AI" (JString "Hello") 42) 200) /\
     usage_of (key doc) w2 = Some 1).
Proof.
  intros E.
  destruct (created_key_is_admitted E "alice" 30 1000%nat (world_with [])
              "Hello" (JString "Hello"))
    as [doc [w1 [Hrun Huse]]].
  - lia.
  - constructor.
  - simpl. tauto.
  - discriminate.
  - vm_compute. intuition discriminate.
  - discriminate.
  - assert (Hw1 : w1 = snd (create_key E 1000 "alice" 30 (world_with [])))
      by now rewrite Hrun.
    assert (Hdoc : Ok doc = fst (create_key E 1000 "alice" 30 (world_with [])))
      by now rewrite Hrun.
    vm_compute in Hw1. vm_compute in Hdoc. injection Hdoc as Hdoc.
    exists doc, w1. split; [exact Hrun|].
    destruct (Huse w1 eq_refl) as [Hadm Hreply].
    assert (Hnow : utcnow_at E (ticks w1)
                   <= trunc_ms (created_at doc + 30 * US_PER_DAY)).
    { subst doc w1. vm_compute. discriminate. }
    split; [apply Hadm; exact Hnow|].
    apply Hreply; [exact Hnow|]. subst w1. reflexivity.
Defined.

(** X6.  Revoking a name twice is the same as revoking it once: the
    second call modifies nothing and returns 0. *)
Theorem revoke_by_name_twice (n : string) (w : World) :
  revoke_by_name n (snd (revoke_by_name n w))
  = (Ok 0, snd (revoke_by_name n w)).
Proof.
  unfold revoke_by_name, update_many_deactivate. simpl.
  unfold with_keys_col. simpl. f_equal.
  - f_equal. unfold modified_count.
    replace (filter _ _) with (@nil KeyDoc); [reflexivity|].
    symmetry. induction (keys_col w) as [|a col IH]; simpl; [reflexivity|].
    destruct (has_name n a) eqn:Ha; simpl.
    + assert (H : has_name n (set_active false a) = true) by exact Ha.
      rewrite H. simpl. exact IH.
    + rewrite Ha. simpl. exact IH.
  - f_equal. unfold update_all. rewrite map_map.
    apply map_ext. intros a.
    destruct (has_name n a) eqn:Ha.
    + assert (H : has_name n (set_active false a) = true) by exact Ha.
      now rewrite H.
    + now rewrite Ha.
Qed.

(** ** The admin commands *)

Lemma unknown_key_invalid E k p w :
  k <> "" -> p <> "" -> ~ In k (map key (keys_col w)) ->
  ai_api E (Some k) (Some p) w
  = (Ok (mkResponse (ErrorBody "Invalid API key") 401), w).
Proof.
  intros Hk Hp Hn. rewrite ai_api_present by assumption.
  unfold has_key_active. now rewrite find_absent_key.
Qed.

Lemma active_unexpired_admitted E w d p :
  unique_keys (keys_col w) -> In d (keys_col w) ->
  key d <> "" -> p <> "" ->
  active d = true -> utcnow_at E (ticks w) <= expires_at d ->
  admits E (key d) p w.
Proof.
  intros Hu Hin Hk Hp Ha Hnow. unfold admits.
  rewrite ai_api_present by assumption.
  rewrite find_key_active_unique by assumption.
  rewrite Ha.
  assert (Hnot : (expires_at d <? utcnow_at E (ticks w)) = false)
    by (apply Z.ltb_ge; lia).
  rewrite Hnot.
  destruct (call_ai_result E (List.length (posts w)) p); reflexivity.
Qed.

Lemma unique_keys_same_key col d d' :
  unique_keys col -> In d col -> In d' col -> key d' = key d -> d' = d.
Proof.
  intros Hu Hd Hd' Hk.
  pose proof (find_key_unique col d Hu Hd) as H1.
  pose proof (find_key_unique col d' Hu Hd') as H2.
  rewrite Hk in H2. congruence.
Qed.

Lemma unique_keys_filter p col :
  unique_keys col -> unique_keys (filter p col).
Proof.
  unfold unique_keys. induction col as [|a col IH]; simpl; intros Hu; [exact Hu|].
  inversion Hu as [|? ? Hna Hu']; subst.
  destruct (p a); simpl; [|now apply IH].
  constructor; [|now apply IH].
  intros Hin. apply Hna. apply in_map_iff in Hin.
  destruct Hin as [x [Hx Hin]]. apply filter_In in Hin.
  apply in_map_iff. exists x. tauto.
Qed.

Lemma text_str_some m s : text m = Some s -> text_str m = Ok s /\ text_of m = s.
Proof. intros H. unfold text_str, text_of. now rewrite H. Qed.

(** A message whose text has a second word has a text. *)
Lemma text_str_of_index m n :
  py_index (py_split_max1 (text_of m)) 1 = Ok n -> text_str m = Ok (text_of m).
Proof.
  unfold text_str, text_of. destruct (text m) as [s|]; [reflexivity|].
  simpl. vm_compute. discriminate.
Qed.

(** [rework_cmd] for the admin, once the name is read. *)
Lemma rework_cmd_admin E m n w :
  is_admin E (from_id m) = true ->
  py_index (py_split_max1 (text_of m)) 1 = Ok n ->
  rework_cmd E m w =
  match create_key E (stack_room E) n 30
          (with_keys_col (update_all (has_name n) (set_active false) (keys_col w)) w) with
  | (Ok doc, w1) => (Ok tt, sent (chat_id m) (KeyReworked (key doc)) w1)
  | (Raise e, w1) => (Raise e, w1)
  end.
Proof.
  intros Ha Hn. unfold rework_cmd. rewrite Ha. simpl.
  unfold bind, lift. rewrite (text_str_of_index m n Hn), Hn.
  unfold revoke_by_name, update_many_deactivate.
  destruct (create_key E (stack_room E) n 30 _) as [[doc|e] w1]; reflexivity.
Qed.

Lemma admitted_iff E w d p :
  unique_keys (keys_col w) -> In d (keys_col w) ->
  key d <> "" -> p <> "" ->
  (admits E (key d) p w <->
   active d = true /\ utcnow_at E (ticks w) <= expires_at d).
Proof.
  intros Hu Hin Hk Hp. split.
  - intros Hadm. destruct (active d) eqn:Ha.
    + split; [reflexivity|].
      destruct (Z.lt_ge_cases (expires_at d) (utcnow_at E (ticks w))) as [Hlt|Hge];
        [|exact Hge].
      exfalso. now apply (past_expiry_not_admitted E w d p).
    + exfalso. unfold admits in Hadm.
      rewrite (deactivated_key_is_invalid E w d p Hu Hin Hk Hp Ha) in Hadm.
      exact (app_one_neq _ _ Hadm).
  - intros [Ha Hnow]. now apply active_unexpired_admitted.
Qed.

Lemma append_byte_nonempty cur c : (cur ++ String c "")%string <> "".
Proof. destruct cur; simpl; discriminate. Qed.

Lemma split_from_cur_nonempty s :
  forall skip cur, cur <> "" -> split_from skip cur s <> [].
Proof.
  induction s as [|c s IH]; intros skip cur Hcur; cbn [split_from].
  - apply String.eqb_neq in Hcur. rewrite Hcur. discriminate.
  - destruct skip as [|k]; [|now apply IH].
    destruct (space_width (String c s)) as [|k].
    + apply IH. apply append_byte_nonempty.
    + apply String.eqb_neq in Hcur. rewrite Hcur. discriminate.
Qed.

Lemma space_width_slash s : space_width (String "/" s) = 0%nat.
Proof.
  unfold space_width. simpl.
  destruct s as [|c2 [|c3 r]]; reflexivity.
Qed.

(** A text that starts with a slash has a command word. *)
Lemma extract_command_slash s :
  startswith "/" s = true -> exists c, extract_command s = Some c.
Proof.
  intros Hs. unfold extract_command. rewrite Hs.
  destruct s as [|c s']; [discriminate|].
  unfold startswith in Hs. apply prefix_correct in Hs.
  simpl in Hs. injection Hs as Hc _. subst c.
  unfold py_split.
  destruct (split_from 0 "" (String "/" s')) as [|first rest] eqn:Hsplit.
  - exfalso. cbn [split_from] in Hsplit. rewrite space_width_slash in Hsplit.
    revert Hsplit. apply split_from_cur_nonempty. discriminate.
  - eexists. reflexivity.
Qed.

Lemma extract_command_some s c :
  extract_command s = Some c -> startswith "/" s = true.
Proof.
  unfold extract_command. destruct (startswith "/" s); [reflexivity | discriminate].
Qed.

(** The dispatcher goes by the command word alone. *)
Lemma process_new_message_routed E m s c w :
  text m = Some s -> extract_command s = Some c ->
  process_new_message E m w =
  if String.eqb c "start" then start_cmd m w
  else if String.eqb c "help" then help_cmd m w
  else if String.eqb c "genkey" then genkey_cmd E m w
  else if String.eqb c "list" then list_cmd E m w
  else if String.eqb c "usage" then usage_cmd E m w
  else if String.eqb c "rework" then rework_cmd E m w
  else if String.eqb c "delkey" then delkey_cmd E m w
  else if String.eqb c "test" then test_cmd E m w
  else (Ok tt, w).
Proof.
  intros Ht Hc.
  assert (Hchat : chat_filter m = false).
  { unfold chat_filter. rewrite Ht, (extract_command_some s c Hc). reflexivity. }
  unfold process_new_message, message_handlers. cbn [find fst snd].
  unfold commands_filter. rewrite Ht, Hc. cbn [existsb].
  rewrite !orb_false_r, Hchat.
  repeat match goal with
         | |- context [String.eqb c ?x] => destruct (String.eqb c x)
         end; reflexivity.
Qed.

(** X7.  A text of the admin whose command word is [rework] and whose
    argument is a name, with a fresh, non-empty token: every record that
    carried the name is now inactive and its key is answered 401
    "Invalid API key"; records of other names are untouched; one new
    record of that name is made, active, with usage 0 and an expiry 30
    days after its creation, and stored with its datetimes cut to the
    millisecond; its key is admitted exactly until that stored expiry;
    the chat is told the new key. *)
Theorem rework_rotates_keys
    (E : Env) (m : Message) (s n : string) (w : World) :
  text m = Some s ->
  extract_command s = Some "rework" ->
  py_index (py_split_max1 s) 1 = Ok n ->
  is_admin E (from_id m) = true ->
  (0 < stack_room E)%nat ->
  unique_keys (keys_col w) ->
  ~ In (token_at E (draws w)) (map key (keys_col w)) ->
  token_at E (draws w) <> "" ->
  representable (utcnow_at E (ticks w)) 30 ->
  exists doc,
    let w' := snd (process_new_message E m w) in
    In (bson_stored doc) (keys_col w') /\
    name doc = n /\ active doc = true /\ usage doc = 0 /\
    expires_at doc = created_at doc + 30 * US_PER_DAY /\
    outbox w' = (outbox w ++ [(chat_id m, KeyReworked (key doc))])%list /\
    (forall d, In d (keys_col w) -> name d <> n -> In d (keys_col w')) /\
    (forall d', In d' (keys_col w') -> name d' = n ->
       d' = bson_stored doc \/ active d' = false) /\
    (forall d p, In d (keys_col w) -> name d = n -> key d <> "" -> p <> "" ->
       ai_api E (Some (key d)) (Some p) w'
       = (Ok (mkResponse (ErrorBody "Invalid API key") 401), w')) /\
    (forall p, p <> "" ->
       (admits E (key doc) p w' <->
        utcnow_at E (ticks w') <= trunc_ms (expires_at doc))).
Proof.
  intros Ht Hc Hn Ha Hroom Hu Hfresh Htok Hrep.
  rewrite (process_new_message_routed E m s "rework" w Ht Hc). cbn [String.eqb].
  simpl.
  destruct (text_str_some m s Ht) as [_ Hof]. rewrite <- Hof in Hn.
  rewrite (rework_cmd_admin E m n w Ha Hn).
  set (col0 := update_all (has_name n) (set_active false) (keys_col w)).
  assert (Hkeys : map key col0 = map key (keys_col w))
    by (apply map_key_update_all; reflexivity).
  assert (Hrun := create_key_after_collisions E n 30 0 (stack_room E)
                    (with_keys_col col0 w) Hroom).
  simpl in Hrun. rewrite !Nat.add_0_r in Hrun.
  rewrite Hrun; clear Hrun.
  2:{ intros j Hj. lia. }
  2:{ now rewrite Hkeys. }
  2:{ intros j Hj. replace j with 0%nat by lia. now rewrite Nat.add_0_r. }
  remember (doc_after E (with_keys_col col0 w) 0 n 30) as doc eqn:Hdoc.
  assert (Hkey : key doc = token_at E (draws w)).
  { rewrite Hdoc. unfold doc_after. simpl. now rewrite Nat.add_0_r. }
  assert (Hname : name doc = n) by now rewrite Hdoc.
  assert (Hact : active doc = true) by now rewrite Hdoc.
  remember (bson_stored doc) as sdoc eqn:Hsdoc.
  assert (Hskey : key sdoc = key doc) by now rewrite Hsdoc.
  assert (Hsact : active sdoc = true) by now rewrite Hsdoc.
  assert (Hsexp : expires_at sdoc = trunc_ms (expires_at doc)) by now rewrite Hsdoc.
  assert (Hu1 : unique_keys (col0 ++ [sdoc])).
  { apply unique_keys_appended.
    - unfold unique_keys. now rewrite Hkeys.
    - now rewrite Hskey, Hkey, Hkeys. }
  exists doc. cbv zeta. cbn [snd]. rewrite <- Hsdoc.
  cbn [keys_col outbox ticks sent].
  split; [apply in_or_app; right; simpl; auto|].
  split; [exact Hname|]. split; [exact Hact|].
  split; [now rewrite Hdoc|]. split; [now rewrite Hdoc|].
  split; [reflexivity|]. split; [|split; [|split]].
  - intros d Hin Hne. apply in_or_app. left. unfold col0, update_all.
    apply in_map_iff. exists d. split; [|exact Hin].
    assert (H : has_name n d = false) by now apply String.eqb_neq.
    now rewrite H.
  - intros d' Hin Hn'. apply in_app_or in Hin. destruct Hin as [Hin | [<- | []]].
    + right. unfold col0, update_all in Hin. apply in_map_iff in Hin.
      destruct Hin as [d [Hd _]].
      destruct (has_name n d) eqn:Hnd; subst d'; [reflexivity|].
      apply String.eqb_neq in Hnd. contradiction.
    + left. reflexivity.
  - intros d p Hin Hnd Hk Hp.
    apply (deactivated_key_is_invalid E _ (set_active false d)); simpl; auto.
    apply in_or_app. left. unfold col0, update_all.
    apply in_map_iff. exists d. split; [|exact Hin].
    assert (H : has_name n d = true) by now apply String.eqb_eq.
    now rewrite H.
  - intros p Hp. rewrite <- Hskey, <- Hsexp.
    match goal with
    | |- admits E (key sdoc) p ?w1 <-> _ =>
        pose proof (admitted_iff E w1 sdoc p) as Hiff
    end.
    simpl in Hiff. rewrite Hiff; auto.
    + rewrite Hsact. tauto.
    + apply in_or_app. right. simpl. auto.
    + now rewrite Hskey, Hkey.
Qed.

Lemma rework_rotates_keys_witness :
  let E := admin_env running_clock (late_token 0) echo_upstream in
  let m := mkMessage 7 70 (Some "/rework alice") in
  exists doc,
    let w' := snd (process_new_message E m
                     (world_with [sample_doc (noon + US_PER_DAY) true])) in
    name doc = "alice" /\ active doc = true /\
    outbox w' = [(70, KeyReworked (key doc))] /\
    ai_api E (Some "tok-A") (Some "Hello") w'
    = (Ok (mkResponse (ErrorBody "Invalid API key") 401), w').
Proof.
  intros E m.
  destruct (rework_rotates_keys E m "/rework alice" "alice"
              (world_with [sample_doc (noon + US_PER_DAY) true]))
    as [doc [_ [Hn [Ha [_ [_ [Hout [_ [_ [Hold _]]]]]]]]]].
  - reflexivity.
  - reflexivity.
  - reflexivity.
  - reflexivity.
  - simpl. lia.
  - unfold unique_keys. simpl. constructor; [simpl; tauto | constructor].
  - simpl. intros [H | []]. discriminate.
  - discriminate.
  - vm_compute. intuition discriminate.
  - exists doc. split; [exact Hn|].
    split; [exact Ha|]. split; [exact Hout|].
    apply (Hold (sample_doc (noon + US_PER_DAY) true) "Hello").
    + simpl. left. reflexivity.
    + reflexivity.
    + discriminate.
    + discriminate.
Defined.

(** X8.  [/rework <name>] revokes before it creates: when every token
    that the generator yields is already in the store, the command ends
    in [RecursionError], sends nothing, and the records of that name stay
    revoked. *)
Theorem rework_failure_keeps_revocation (E : Env) (m : Message) (n : string) (w : World) :
  is_admin E (from_id m) = true ->
  py_index (py_split_max1 (text_of m)) 1 = Ok n ->
  (forall j, (j < stack_room E)%nat ->
     In (token_at E (draws w + j)%nat) (map key (keys_col w))) ->
  (forall j, (j < stack_room E)%nat ->
     representable (utcnow_at E (ticks w + j)%nat) 30) ->
  exists w',
    rework_cmd E m w = (Raise RecursionError, w') /\
    outbox w' = outbox w /\
    List.length (keys_col w') = List.length (keys_col w) /\
    (forall d', In d' (keys_col w') -> name d' = n -> active d' = false).
Proof.
  intros Ha Hn Hcoll Hrep.
  rewrite (rework_cmd_admin E m n w Ha Hn).
  rewrite create_key_all_collide.
  - eexists. split; [reflexivity|]. simpl. split; [reflexivity|].
    split; [unfold update_all; apply length_map|].
    intros d' Hin Hn'. unfold update_all in Hin. apply in_map_iff in Hin.
    destruct Hin as [d [Hd _]].
    destruct (has_name n d) eqn:Hnd; subst d'; [reflexivity|].
    apply String.eqb_neq in Hnd. contradiction.
  - intros j Hj. simpl. rewrite map_key_update_all by reflexivity. now apply Hcoll.
  - intros j Hj. simpl. now apply Hrep.
Qed.

Lemma rework_failure_keeps_revocation_witness :
  let E := admin_env steady_clock stuck_token echo_upstream in
  let m := mkMessage 7 70 (Some "/rework alice") in
  exists w',
    rework_cmd E m (world_with [sample_doc (noon + US_PER_DAY) true])
    = (Raise RecursionError, w') /\
    outbox w' = [] /\
    (forall d', In d' (keys_col w') -> name d' = "alice" -> active d' = false).
Proof.
  intros E m.
  destruct (rework_failure_keeps_revocation E m "alice"
              (world_with [sample_doc (noon + US_PER_DAY) true]))
    as [w' [Hrun [Hout [_ Hrev]]]].
  - reflexivity.
  - reflexivity.
  - intros j _. simpl. left. reflexivity.
  - intros j _. exact representable_noon_30.
  - exists w'. split; [exact Hrun|]. split; [exact Hout | exact Hrev].
Defined.

(** [delkey_cmd] for the admin, once the argument is read. *)
Lemma delkey_cmd_admin E m t w :
  is_admin E (from_id m) = true ->
  py_index (py_split_max1 (text_of m)) 1 = Ok t ->
  delkey_cmd E m w
  = (Ok tt,
     sent (chat_id m) DeletedText
       (with_keys_col (filter (fun d => negb (has_key_or_name t d)) (keys_col w)) w)).
Proof.
  intros Ha Ht. unfold delkey_cmd. rewrite Ha. simpl.
  unfold bind, lift. rewrite (text_str_of_index m t Ht), Ht. reflexivity.
Qed.

(** X9.  [/delkey <t>] from the admin removes exactly the records whose
    key or whose name is [t] and keeps the others; it answers "Deleted"
    whether or not anything matched.  Afterwards [t] presented as a key
    is answered 401 "Invalid API key", and so is, in a store with unique
    keys, the key of every record that carried the name [t]. *)
Theorem delkey_removes_key_and_name (E : Env) (m : Message) (t : string) (w : World) :
  is_admin E (from_id m) = true ->
  py_index (py_split_max1 (text_of m)) 1 = Ok t ->
  exists w',
    delkey_cmd E m w = (Ok tt, w') /\
    outbox w' = (outbox w ++ [(chat_id m, DeletedText)])%list /\
    (forall d, In d (keys_col w') <->
               In d (keys_col w) /\ key d <> t /\ name d <> t) /\
    (forall p, t <> "" -> p <> "" ->
       ai_api E (Some t) (Some p) w'
       = (Ok (mkResponse (ErrorBody "Invalid API key") 401), w')) /\
    (unique_keys (keys_col w) ->
     forall d p, In d (keys_col w) -> name d = t -> key d <> "" -> p <> "" ->
       ai_api E (Some (key d)) (Some p) w'
       = (Ok (mkResponse (ErrorBody "Invalid API key") 401), w')).
Proof.
  intros Ha Ht. rewrite (delkey_cmd_admin E m t w Ha Ht).
  eexists. split; [reflexivity|]. simpl. split; [reflexivity|].
  assert (Hmem : forall d,
            In d (filter (fun d => negb (has_key_or_name t d)) (keys_col w)) <->
            In d (keys_col w) /\ key d <> t /\ name d <> t).
  { intros d. rewrite filter_In. unfold has_key_or_name, has_key, has_name.
    rewrite negb_true_iff, orb_false_iff, !String.eqb_neq. tauto. }
  split; [exact Hmem|]. split.
  - intros p Hne Hp. apply unknown_key_invalid; auto. simpl.
    intros Hin. apply in_map_iff in Hin. destruct Hin as [d [Hk Hin]].
    apply Hmem in Hin. tauto.
  - intros Hu d p Hin Hn Hk Hp. apply unknown_key_invalid; auto. simpl.
    intros Hin'. apply in_map_iff in Hin'. destruct Hin' as [d' [Hk' Hin']].
    apply Hmem in Hin'. destruct Hin' as [Hd' [_ Hn']].
    assert (d' = d) by now apply (unique_keys_same_key (keys_col w)).
    subst d'. contradiction.
Qed.

Lemma delkey_removes_key_and_name_witness :
  let E := admin_env steady_clock stuck_token echo_upstream in
  let m := mkMessage 7 70 (Some "/delkey alice") in
  exists w',
    delkey_cmd E m (world_with [sample_doc (noon + US_PER_DAY) true]) = (Ok tt, w') /\
    ai_api E (Some "tok-A") (Some "Hello") w'
    = (Ok (mkResponse (ErrorBody "Invalid API key") 401), w').
Proof.
  intros E m.
  destruct (delkey_removes_key_and_name E m "alice"
              (world_with [sample_doc (noon + US_PER_DAY) true]))
    as [w' [Hrun [_ [_ [_ Hname]]]]].
  - reflexivity.
  - reflexivity.
  - exists w'. split; [exact Hrun|].
    apply (Hname ltac:(unfold unique_keys; simpl; constructor; [simpl; tauto | constructor])
                 (sample_doc (noon + US_PER_DAY) true) "Hello").
    + simpl. left. reflexivity.
    + reflexivity.
    + discriminate.
    + discriminate.
Defined.

(** ** The webhook as a whole *)

Lemma handlers_cases E (P : (Message -> M unit) -> Prop) :
  P start_cmd -> P help_cmd -> P (genkey_cmd E) -> P (list_cmd E) ->
  P (usage_cmd E) -> P (rework_cmd E) -> P (delkey_cmd E) -> P (test_cmd E) ->
  P (chat_handler E) ->
  forall h, In h (message_handlers E) -> P (snd h).
Proof.
  intros H1 H2 H3 H4 H5 H6 H7 H8 H9 h Hin. unfold message_handlers in Hin.
  simpl in Hin.
  repeat (destruct Hin as [<- | Hin]; [assumption|]). contradiction.
Qed.

Lemma process_new_message_cases E (P : result unit * World -> Prop) m w :
  P (Ok tt, w) ->
  (forall h, In h (message_handlers E) -> P (snd h m w)) ->
  P (process_new_message E m w).
Proof.
  intros Hnone Hh. unfold process_new_message.
  destruct (find (fun h => fst h m) (message_handlers E)) as [h|] eqn:Hf.
  - apply Hh. apply find_some in Hf. tauto.
  - exact Hnone.
Qed.

Lemma telegram_webhook_cases E (P : World -> Prop) data w :
  P w ->
  (forall u m, de_json E data = Ok u -> message u = Some m ->
     P (snd (process_new_message E m w))) ->
  P (snd (telegram_webhook E data w)).
Proof.
  intros Hw Hm. unfold telegram_webhook, bind, lift, ret, process_new_updates.
  destruct (de_json E data) as [u|e] eqn:Hu; [|exact Hw].
  destruct (message u) as [m|] eqn:Hmsg; [|exact Hw].
  specialize (Hm u m eq_refl Hmsg).
  destruct (process_new_message E m w) as [[[]|e] w']; exact Hm.
Qed.

(** X10.  Through [/telegram], a sender who is not the admin cannot
    touch the keys: whatever the payload, the collection is left exactly
    as it was, no token is generated and the clock is not read. *)
Theorem telegram_webhook_non_admin_keeps_keys (E : Env) (data : string) (w : World) :
  (forall u m, de_json E data = Ok u -> message u = Some m ->
     is_admin E (from_id m) = false) ->
  let w' := snd (telegram_webhook E data w) in
  keys_col w' = keys_col w /\ draws w' = draws w /\ ticks w' = ticks w.
Proof.
  intros Hna.
  apply (telegram_webhook_cases E
           (fun w' => keys_col w' = keys_col w /\ draws w' = draws w /\ ticks w' = ticks w)).
  { auto. }
  intros u m Hu Hm. specialize (Hna u m Hu Hm).
  apply (process_new_message_cases E
           (fun out => keys_col (snd out) = keys_col w /\
                       draws (snd out) = draws w /\ ticks (snd out) = ticks w)).
  { simpl. auto. }
  apply (handlers_cases E
           (fun f => keys_col (snd (f m w)) = keys_col w /\
                     draws (snd (f m w)) = draws w /\ ticks (snd (f m w)) = ticks w));
    try (unfold genkey_cmd, list_cmd, usage_cmd, rework_cmd, delkey_cmd, test_cmd;
         rewrite Hna; simpl; auto; fail).
  - simpl. auto.
  - simpl. auto.
  - rewrite chat_handler_eq.
    destruct (call_ai_result E (List.length (posts w)) (text_of m)); simpl; auto.
Qed.

Lemma telegram_webhook_non_admin_keeps_keys_witness :
  let E := sample_env steady_clock stuck_token echo_upstream in
  let w := world_with [sample_doc noon true] in
  let w' := snd (telegram_webhook E "/delkey alice" w) in
  keys_col w' = keys_col w /\ draws w' = draws w /\ ticks w' = ticks w.
Proof.
  intros E w.
  apply (telegram_webhook_non_admin_keeps_keys E "/delkey alice" w).
  intros u m Hu Hm. simpl in Hu. unfold text_update in Hu.
  injection Hu as <-. simpl in Hm. injection Hm as <-. reflexivity.
Defined.

Lemma unique_keys_genkey_cmd E m w :
  unique_keys (keys_col w) -> unique_keys (keys_col (snd (genkey_cmd E m w))).
Proof.
  intros Hu. unfold genkey_cmd.
  destruct (negb (is_admin E (from_id m))); [exact Hu|].
  unfold bind, lift.
  destruct (text_str m) as [s|e]; [|exact Hu].
  destruct (List.length (py_split s) <? 3)%nat; [exact Hu|].
  destruct (py_index (py_split s) 1) as [n|e]; [|exact Hu].
  destruct (py_index (py_split s) 2) as [d|e]; [|exact Hu].
  destruct (py_int (unicode_int E) d) as [days|e]; [|exact Hu].
  pose proof (unique_keys_create_key E n days (stack_room E) w Hu) as Hc.
  destruct (create_key E (stack_room E) n days w) as [[doc|e] w1]; exact Hc.
Qed.

Lemma unique_keys_rework_cmd E m w :
  unique_keys (keys_col w) -> unique_keys (keys_col (snd (rework_cmd E m w))).
Proof.
  intros Hu. unfold rework_cmd.
  destruct (negb (is_admin E (from_id m))); [exact Hu|].
  unfold bind, lift.
  destruct (text_str m) as [s|e]; [|exact Hu].
  destruct (py_index (py_split_max1 s) 1) as [n|e]; [|exact Hu].
  unfold revoke_by_name, update_many_deactivate.
  match goal with
  | |- context [create_key E ?d ?n ?days ?w0] =>
      pose proof (unique_keys_create_key E n days d w0) as Hc;
      destruct (create_key E d n days w0) as [[doc|e] w1]
  end; apply Hc; unfold unique_keys; simpl;
    now rewrite map_key_update_all.
Qed.

Lemma unique_keys_delkey_cmd E m w :
  unique_keys (keys_col w) -> unique_keys (keys_col (snd (delkey_cmd E m w))).
Proof.
  intros Hu. unfold delkey_cmd.
  destruct (negb (is_admin E (from_id m))); [exact Hu|].
  unfold bind, lift.
  destruct (text_str m) as [s|e]; [|exact Hu].
  destruct (py_index (py_split_max1 s) 1) as [t|e]; [|exact Hu].
  simpl. now apply unique_keys_filter.
Qed.

Lemma keys_kept_list_cmd E m w : keys_col (snd (list_cmd E m w)) = keys_col w.
Proof.
  unfold list_cmd. destruct (negb (is_admin E (from_id m))); [reflexivity|].
  unfold bind, find_all. destruct (keys_col w) eqn:Hk; simpl; exact Hk.
Qed.

Lemma keys_kept_usage_cmd E m w : keys_col (snd (usage_cmd E m w)) = keys_col w.
Proof.
  unfold usage_cmd. destruct (negb (is_admin E (from_id m))); [reflexivity|].
  unfold bind, lift, find_one, ret.
  destruct (text_str m) as [s|e]; [|reflexivity].
  destruct (List.length (py_split_max1 s) <? 2)%nat; [reflexivity|].
  destruct (py_index (py_split_max1 s) 1) as [a|e]; [|reflexivity].
  destruct (find (has_key a) (keys_col w)); [reflexivity|].
  destruct (find (has_name a) (keys_col w)); reflexivity.
Qed.

Lemma keys_kept_test_cmd E m w : keys_col (snd (test_cmd E m w)) = keys_col w.
Proof.
  unfold test_cmd. destruct (negb (is_admin E (from_id m))); [reflexivity|].
  unfold bind, lift.
  destruct (text_str m) as [s|e]; [|reflexivity].
  destruct (py_index (py_split_max1 s) 1) as [t|e]; [|reflexivity].
  rewrite call_ai_eq.
  destruct (call_ai_result E (List.length (posts w)) "OK"); reflexivity.
Qed.

(** X11.  The unique index is an invariant of the whole service: a store
    without two records of the same key stays so after any request to
    [/ai] and after any payload posted to [/telegram], from the admin or
    from anyone else. *)
Theorem unique_keys_invariant (E : Env) (w : World) :
  unique_keys (keys_col w) ->
  (forall apikey prompt, unique_keys (keys_col (snd (ai_api E apikey prompt w)))) /\
  (forall data, unique_keys (keys_col (snd (telegram_webhook E data w)))).
Proof.
  intros Hu. split.
  - intros apikey prompt. now apply unique_keys_ai_api.
  - intros data.
    apply (telegram_webhook_cases E (fun w' => unique_keys (keys_col w'))).
    { exact Hu. }
    intros u m _ _.
    apply (process_new_message_cases E (fun out => unique_keys (keys_col (snd out)))).
    { exact Hu. }
    apply (handlers_cases E (fun f => unique_keys (keys_col (snd (f m w))))).
    + exact Hu.
    + exact Hu.
    + now apply unique_keys_genkey_cmd.
    + now rewrite keys_kept_list_cmd.
    + now rewrite keys_kept_usage_cmd.
    + now apply unique_keys_rework_cmd.
    + now apply unique_keys_delkey_cmd.
    + now rewrite keys_kept_test_cmd.
    + rewrite chat_handler_eq.
      destruct (call_ai_result E (List.length (posts w)) (text_of m)); exact Hu.
Qed.

Lemma unique_keys_invariant_witness :
  let E := admin_env running_clock (late_token 0) echo_upstream in
  let w := world_with [sample_doc noon true] in
  unique_keys (keys_col (snd (ai_api E (Some "tok-A") (Some "Hello") w))) /\
  unique_keys (keys_col (snd (telegram_webhook E "/genkey bob 30" w))).
Proof.
  intros E w.
  destruct (unique_keys_invariant E w) as [Hai Htg].
  - unfold unique_keys. simpl. constructor; [simpl; tauto | constructor].
  - split; [apply Hai | apply Htg].
Defined.

(** ** Single commands *)

Lemma py_index_short l :
  (List.length l < 2)%nat -> py_index l 1 = Raise IndexError.
Proof.
  intros Hl. unfold py_index.
  destruct (nth_error l 1) eqn:Hn; [|reflexivity].
  assert (nth_error l 1 <> None) by congruence.
  apply nth_error_Some in H. lia.
Qed.

(** X12.  A command of the admin that comes without its argument, that
    is, whose text has fewer than two words: [/rework], [/delkey] and
    [/test] raise [IndexError] before doing anything, while [/usage]
    returns silently; the world is unchanged in all four cases. *)
Theorem bare_admin_commands (E : Env) (m : Message) (s : string) (w : World) :
  is_admin E (from_id m) = true ->
  text m = Some s ->
  (List.length (py_split_max1 s) < 2)%nat ->
  rework_cmd E m w = (Raise IndexError, w) /\
  delkey_cmd E m w = (Raise IndexError, w) /\
  test_cmd E m w = (Raise IndexError, w) /\
  usage_cmd E m w = (Ok tt, w).
Proof.
  intros Ha Ht Hl. unfold rework_cmd, delkey_cmd, test_cmd, usage_cmd.
  rewrite Ha. simpl. unfold bind, lift.
  destruct (text_str_some m s Ht) as [-> _].
  rewrite (py_index_short _ Hl).
  apply Nat.ltb_lt in Hl. rewrite Hl. auto.
Qed.

Lemma bare_admin_commands_witness :
  let E := admin_env steady_clock stuck_token echo_upstream in
  let m := mkMessage 7 70 (Some "/rework") in
  let w := world_with [sample_doc noon true] in
  rework_cmd E m w = (Raise IndexError, w) /\
  delkey_cmd E m w = (Raise IndexError, w) /\
  test_cmd E m w = (Raise IndexError, w) /\
  usage_cmd E m w = (Ok tt, w).
Proof.
  intros E m w. apply (bare_admin_commands E m "/rework" w).
  - reflexivity.
  - reflexivity.
  - vm_compute. lia.
Defined.

(** X13.  [/test <target>] from the admin never looks at its target: it
    POSTs the fixed text ["OK"], leaves the keys alone, and reports the
    measured latency when the upstream answers well; otherwise it raises
    and sends nothing. *)
Theorem test_cmd_ignores_target (E : Env) (m : Message) (target : string) (w : World) :
  is_admin E (from_id m) = true ->
  py_index (py_split_max1 (text_of m)) 1 = Ok target ->
  let '(r, w') := test_cmd E m w in
  posts w' = (posts w ++ ["OK"])%list /\
  keys_col w' = keys_col w /\
  match good_answer (upstream_at E (List.length (posts w)) "OK") with
  | Some _ =>
      r = Ok tt /\
      outbox w' = (outbox w ++ [(chat_id m, TestOk (elapsed_at E (List.length (posts w))))])%list
  | None => (exists e, r = Raise e) /\ outbox w' = outbox w
  end.
Proof.
  intros Ha Ht. unfold test_cmd. rewrite Ha. simpl.
  unfold bind, lift. rewrite (text_str_of_index m target Ht), Ht.
  rewrite call_ai_eq.
  destruct (call_ai_result E (List.length (posts w)) "OK") as [r|e] eqn:Hc.
  - apply call_ai_result_ok in Hc. destruct Hc as [Hc1 Hc2]. rewrite Hc1.
    simpl. rewrite Hc2. auto.
  - apply call_ai_result_raise in Hc. rewrite Hc. simpl.
    repeat split; try reflexivity. now exists e.
Qed.

Lemma test_cmd_ignores_target_witness :
  let E := admin_env steady_clock stuck_token echo_upstream in
  let '(r, w') := test_cmd E (mkMessage 7 70 (Some "/test main")) (world_with []) in
  posts w' = ["OK"] /\ keys_col w' = [] /\
  r = Ok tt /\ outbox w' = [(70, TestOk 42)].
Proof.
  intros E.
  pose proof (test_cmd_ignores_target E (mkMessage 7 70 (Some "/test main"))
                "main" (world_with []) eq_refl eq_refl) as H.
  destruct (test_cmd E (mkMessage 7 70 (Some "/test main")) (world_with []))
    as [r w'].
  destruct H as [Hp [Hk Hr]]. simpl in Hr. tauto.
Defined.

Lemma usage_cmd_admin E m a w :
  is_admin E (from_id m) = true ->
  py_index (py_split_max1 (text_of m)) 1 = Ok a ->
  usage_cmd E m w =
  (Ok tt,
   sent (chat_id m)
     match find (has_key a) (keys_col w) with
     | Some d => UsageText (name d) (usage d)
     | None =>
         match find (has_name a) (keys_col w) with
         | Some d => UsageText (name d) (usage d)
         | None => KeyNotFound
         end
     end w).
Proof.
  intros Ha Hi. unfold usage_cmd. rewrite Ha. simpl.
  unfold bind at 1. unfold lift at 1. rewrite (text_str_of_index m a Hi).
  assert (Hl : (List.length (py_split_max1 (text_of m)) <? 2)%nat = false).
  { apply Nat.ltb_ge. unfold py_index in Hi.
    destruct (nth_error (py_split_max1 (text_of m)) 1) eqn:Hn; [|discriminate].
    assert (nth_error (py_split_max1 (text_of m)) 1 <> None) by congruence.
    apply nth_error_Some in H. lia. }
  rewrite Hl. unfold bind, lift, find_one, ret. rewrite Hi.
  destruct (find (has_key a) (keys_col w)); [reflexivity|].
  destruct (find (has_name a) (keys_col w)); reflexivity.
Qed.

Lemma find_absent_name a col :
  (forall d, In d col -> name d <> a) -> find (has_name a) col = None.
Proof.
  induction col as [|x col IH]; simpl; intros H; [reflexivity|].
  assert (Hx : has_name a x = false).
  { apply String.eqb_neq. apply H. auto. }
  rewrite Hx. apply IH. intros d Hd. apply H. auto.
Qed.

Lemma find_absent_key_plain k col :
  ~ In k (map key col) -> find (has_key k) col = None.
Proof.
  induction col as [|x col IH]; simpl; intros H; [reflexivity|].
  assert (Hx : has_key k x = false) by (apply has_key_false; tauto).
  rewrite Hx. apply IH. tauto.
Qed.

(** X14.  [/usage <a>] from the admin only reads: it changes nothing but
    the outbox.  A record whose key is [a] wins over records whose name
    is [a]; when no key matches, the report is about the record of that
    name that was inserted first, revoked or not, also when newer records
    carry the name; when nothing matches the answer is "Key not found". *)
Theorem usage_cmd_lookup (E : Env) (m : Message) (a : string) (w : World) :
  is_admin E (from_id m) = true ->
  py_index (py_split_max1 (text_of m)) 1 = Ok a ->
  (forall d, unique_keys (keys_col w) -> In d (keys_col w) -> key d = a ->
     usage_cmd E m w = (Ok tt, sent (chat_id m) (UsageText (name d) (usage d)) w)) /\
  (forall older d newer,
     keys_col w = (older ++ d :: newer)%list ->
     ~ In a (map key (keys_col w)) ->
     (forall x, In x older -> name x <> a) -> name d = a ->
     usage_cmd E m w = (Ok tt, sent (chat_id m) (UsageText a (usage d)) w)) /\
  (~ In a (map key (keys_col w)) ->
   (forall x, In x (keys_col w) -> name x <> a) ->
   usage_cmd E m w = (Ok tt, sent (chat_id m) KeyNotFound w)).
Proof.
  intros Ha Hi. rewrite (usage_cmd_admin E m a w Ha Hi).
  split; [|split].
  - intros d Hu Hin Hk. subst a. now rewrite find_key_unique.
  - intros older d newer Hcol Hnk Hold Hn.
    rewrite find_absent_key_plain by exact Hnk.
    rewrite Hcol.
    assert (Hf : find (has_name a) (older ++ d :: newer) = Some d).
    { clear Hcol. induction older as [|x older IH]; simpl.
      - assert (H : has_name a d = true) by now apply String.eqb_eq.
        now rewrite H.
      - assert (Hx : has_name a x = false).
        { apply String.eqb_neq. apply Hold. simpl. auto. }
        rewrite Hx. apply IH. intros y Hy. apply Hold. simpl. auto. }
    rewrite Hf, Hn. reflexivity.
  - intros Hnk Hnn.
    rewrite find_absent_key_plain by exact Hnk.
    now rewrite find_absent_name.
Qed.

Lemma usage_cmd_lookup_witness :
  let E := admin_env steady_clock stuck_token echo_upstream in
  let m := mkMessage 7 70 (Some "/usage alice") in
  let old := sample_doc noon false in
  let new := mkKeyDoc "tok-B" "alice" noon (noon + US_PER_DAY) true 0 in
  usage_cmd E m (world_with [old; new])
  = (Ok tt, sent 70 (UsageText "alice" 3) (world_with [old; new])).
Proof.
  intros E m old new.
  destruct (usage_cmd_lookup E m "alice" (world_with [old; new]) eq_refl eq_refl)
    as [_ [Hname _]].
  apply (Hname [] old [new]).
  - reflexivity.
  - simpl. intros [H | [H | []]]; discriminate.
  - intros x [].
  - reflexivity.
Defined.

Lemma bind_lift_ok {A B} (a : A) (k : A -> M B) (w : World) :
  bind (lift (Ok a)) k w = k a w.
Proof. reflexivity. Qed.

Lemma py_int_raises_value_error u s e : py_int u s = Raise e -> e = ValueError.
Proof.
  unfold py_int. destruct (py_split s) as [|t [|t' l]]; try congruence.
  match goal with
  | |- match ?x with Some _ => _ | None => _ end = _ -> _ => destruct x
  end; congruence.
Qed.

(** X15.  A text of the admin whose command word is [genkey].  The text
    is split at whitespace as Python does.  With fewer than three words
    nothing happens.  With a third word that [int] rejects, the command
    raises [ValueError] before any key is made.  Otherwise, with a fresh
    token and a representable expiry, one record is made with the second
    word as its name and the parsed number of days as its lifetime; it is
    appended to the store as the collection keeps it, and the chat is
    told that name and the key; words after the third are ignored. *)
Theorem genkey_cmd_admin (E : Env) (m : Message) (s : string) (w : World) :
  text m = Some s ->
  extract_command s = Some "genkey" ->
  is_admin E (from_id m) = true ->
  ((List.length (py_split s) < 3)%nat -> process_new_message E m w = (Ok tt, w)) /\
  (forall c n d rest,
     py_split s = c :: n :: d :: rest ->
     (forall e, py_int (unicode_int E) d = Raise e ->
        process_new_message E m w = (Raise ValueError, w)) /\
     (forall days,
        py_int (unicode_int E) d = Ok days ->
        (0 < stack_room E)%nat ->
        ~ In (token_at E (draws w)) (map key (keys_col w)) ->
        representable (utcnow_at E (ticks w)) days ->
        exists doc,
          let w' := snd (process_new_message E m w) in
          keys_col w' = (keys_col w ++ [bson_stored doc])%list /\
          key doc = token_at E (draws w) /\
          name doc = n /\ active doc = true /\ usage doc = 0 /\
          created_at doc = utcnow_at E (ticks w) /\
          expires_at doc = created_at doc + days * US_PER_DAY /\
          outbox w' = (outbox w ++ [(chat_id m, KeyGenerated n (key doc))])%list)).
Proof.
  intros Ht Hc Ha.
  rewrite (process_new_message_routed E m s "genkey" w Ht Hc). cbn [String.eqb].
  simpl.
  unfold genkey_cmd. rewrite Ha. simpl.
  destruct (text_str_some m s Ht) as [-> _]. rewrite bind_lift_ok.
  cbv beta zeta. split.
  - intros Hl. apply Nat.ltb_lt in Hl. now rewrite Hl.
  - intros c n d rest Hs. rewrite Hs. simpl. unfold bind, lift. simpl. split.
    + intros e He. rewrite He. now rewrite (py_int_raises_value_error _ d e He).
    + intros days Hd Hroom Hfresh Hrep. rewrite Hd.
      assert (Hrun := create_key_after_collisions E n days 0 (stack_room E) w Hroom).
      rewrite !Nat.add_0_r in Hrun.
      rewrite Hrun; clear Hrun.
      2:{ intros j Hj. lia. }
      2:{ exact Hfresh. }
      2:{ intros j Hj. replace j with 0%nat by lia. now rewrite Nat.add_0_r. }
      eexists. cbv zeta.
      unfold doc_after. simpl. rewrite !Nat.add_0_r. repeat split; reflexivity.
Qed.

(** The third sample text separates its words with U+00A0, the no-break
    space, written here in UTF-8. *)
Lemma genkey_cmd_admin_witness :
  let E := admin_env steady_clock (late_token 0) echo_upstream in
  let nbsp := String (ascii_of_nat 194) (String (ascii_of_nat 160) "") in
  process_new_message E (mkMessage 7 70 (Some "/genkey bob")) (world_with [])
  = (Ok tt, world_with []) /\
  process_new_message E (mkMessage 7 70 (Some "/genkey bob soon")) (world_with [])
  = (Raise ValueError, world_with []) /\
  exists doc,
    let w' := snd (process_new_message E
                     (mkMessage 7 70 (Some ("/genkey bob" ++ nbsp ++ "3_0 days")%string))
                     (world_with [])) in
    keys_col w' = [bson_stored doc] /\ name doc = "bob" /\
    expires_at doc = created_at doc + 30 * US_PER_DAY /\
    outbox w' = [(70, KeyGenerated "bob" (key doc))].
Proof.
  intros E nbsp. split; [|split].
  - destruct (genkey_cmd_admin E (mkMessage 7 70 (Some "/genkey bob")) "/genkey bob"
                (world_with []) eq_refl eq_refl eq_refl) as [Hshort _].
    apply Hshort. vm_compute. lia.
  - destruct (genkey_cmd_admin E (mkMessage 7 70 (Some "/genkey bob soon"))
                "/genkey bob soon" (world_with []) eq_refl eq_refl eq_refl)
      as [_ Hlong].
    destruct (Hlong "/genkey" "bob" "soon" [] eq_refl) as [Hbad _].
    apply (Hbad ValueError). reflexivity.
  - destruct (genkey_cmd_admin E
                (mkMessage 7 70 (Some ("/genkey bob" ++ nbsp ++ "3_0 days")%string))
                ("/genkey bob" ++ nbsp ++ "3_0 days")%string
                (world_with []) eq_refl eq_refl eq_refl) as [_ Hlong].
    destruct (Hlong "/genkey" "bob" "3_0" ["days"] eq_refl) as [_ Hgood].
    destruct (Hgood 30) as [doc [Hcol [_ [Hn [_ [_ [_ [Hexp Hout]]]]]]]].
    + reflexivity.
    + simpl. lia.
    + simpl. tauto.
    + exact representable_noon_30.
    + exists doc. repeat split; assumption.
Defined.

(** X16.  A text that starts with a slash is routed by its command word
    alone, for every sender: to the handler registered for that word, or
    to no handler at all when the word is none of the eight; it never
    reaches [chat_handler].  From a sender who is not the admin, [start]
    and [help] send their fixed text to the chat and every other slash
    text has no effect: the handler returns, nothing is POSTed upstream
    and the keys are not touched. *)
Theorem slash_text_is_routed_by_command (E : Env) (m : Message) (s : string) (w : World) :
  text m = Some s -> startswith "/" s = true ->
  exists c,
    extract_command s = Some c /\
    process_new_message E m w
    = (if String.eqb c "start" then start_cmd m w
       else if String.eqb c "help" then help_cmd m w
       else if String.eqb c "genkey" then genkey_cmd E m w
       else if String.eqb c "list" then list_cmd E m w
       else if String.eqb c "usage" then usage_cmd E m w
       else if String.eqb c "rework" then rework_cmd E m w
       else if String.eqb c "delkey" then delkey_cmd E m w
       else if String.eqb c "test" then test_cmd E m w
       else (Ok tt, w)) /\
    (is_admin E (from_id m) = false ->
     process_new_message E m w
     = (if String.eqb c "start" then (Ok tt, sent (chat_id m) StartText w)
        else if String.eqb c "help" then (Ok tt, sent (chat_id m) HelpText w)
        else (Ok tt, w))).
Proof.
  intros Ht Hs. destruct (extract_command_slash s Hs) as [c Hc].
  exists c. split; [exact Hc|].
  rewrite (process_new_message_routed E m s c w Ht Hc).
  split; [reflexivity|]. intros Hna.
  unfold genkey_cmd, list_cmd, usage_cmd, rework_cmd, delkey_cmd, test_cmd.
  rewrite Hna. simpl.
  repeat match goal with
         | |- context [String.eqb c ?x] => destruct (String.eqb c x)
         end; reflexivity.
Qed.

Lemma slash_text_is_routed_by_command_witness :
  let E := sample_env steady_clock stuck_token echo_upstream in
  let m := mkMessage 7 70 (Some "/delkey alice") in
  let w := world_with [sample_doc noon true] in
  process_new_message E m w = delkey_cmd E m w /\
  process_new_message E m w = (Ok tt, w).
Proof.
  intros E m w.
  destruct (slash_text_is_routed_by_command E m "/delkey alice" w eq_refl eq_refl)
    as [c [Hc [Hroute Hna]]].
  vm_compute in Hc. injection Hc as <-.
  split; [exact Hroute | exact (Hna eq_refl)].
Defined.

(** X17.  [/start], [/help], [/list] and [/usage] only read, for every
    sender and every message: whether they return or raise, they leave
    the keys, the clock, the token generator and the upstream alone, and
    they call [bot.send_message] at most once, for the chat the command
    came from.  For the admin, [/list] hands every record of a non-empty
    store to one such call, and "No keys found" for an empty store. *)
Theorem reading_commands_only_send (E : Env) (m : Message) (w : World) :
  (forall f, In f [start_cmd; help_cmd; list_cmd E; usage_cmd E] ->
     let w' := snd (f m w) in
     keys_col w' = keys_col w /\ posts w' = posts w /\
     ticks w' = ticks w /\ draws w' = draws w /\
     (outbox w' = outbox w \/
      exists t, outbox w' = (outbox w ++ [(chat_id m, t)])%list)) /\
  (is_admin E (from_id m) = true ->
   snd (list_cmd E m w)
   = sent (chat_id m)
       (match keys_col w with [] => NoKeysFound | _ => KeyList (keys_col w) end) w).
Proof.
  split.
  - intros f Hf. simpl in Hf.
    destruct Hf as [<- | [<- | [<- | [<- | []]]]].
    + simpl. repeat split; eauto.
    + simpl. repeat split; eauto.
    + unfold list_cmd. destruct (negb (is_admin E (from_id m))).
      { simpl. repeat split; auto. }
      unfold bind, find_all.
      destruct (keys_col w) eqn:Hk; simpl; repeat split; eauto.
    + unfold usage_cmd. destruct (negb (is_admin E (from_id m))).
      { simpl. repeat split; auto. }
      unfold bind, lift, find_one, ret.
      destruct (text_str m) as [s|e]; [|simpl; repeat split; auto].
      destruct (List.length (py_split_max1 s) <? 2)%nat.
      { simpl. repeat split; auto. }
      destruct (py_index (py_split_max1 s) 1) as [a|e];
        [|simpl; repeat split; auto].
      destruct (find (has_key a) (keys_col w)).
      { simpl. repeat split; eauto. }
      destruct (find (has_name a) (keys_col w)); simpl; repeat split; eauto.
  - intros Ha. unfold list_cmd. rewrite Ha. simpl.
    unfold bind, find_all. destruct (keys_col w) eqn:Hk; reflexivity.
Qed.

Lemma reading_commands_only_send_witness :
  let E := admin_env steady_clock stuck_token echo_upstream in
  let m := mkMessage 7 70 (Some "/list") in
  let w := world_with [sample_doc noon true] in
  (let w' := snd (usage_cmd E m w) in
   keys_col w' = keys_col w /\ posts w' = posts w /\
   ticks w' = ticks w /\ draws w' = draws w /\
   (outbox w' = outbox w \/
    exists t, outbox w' = (outbox w ++ [(chat_id m, t)])%list)) /\
  snd (list_cmd E m w) = sent 70 (KeyList [sample_doc noon true]) w.
Proof.
  intros E m w.
  destruct (reading_commands_only_send E m w) as [Hread Hlist].
  split.
  - apply (Hread (usage_cmd E)). simpl. auto.
  - apply Hlist. reflexivity.
Defined.
